(** * LowPass: decimating FIR low-pass filter (src/dsp/lowpass.cxx)

    A shallow embedding of [LowPass] and the properties of its coefficient
    design ([init], [recalculate]), of its streaming convolution
    ([process]) and of its shutdown ([deinit]).

    Conventions of the embedding:
    - [unsigned int] is a 32-bit integer, carried as a [Z] in [0, 2^32) with
      the wrap-around of every operation written out ([u32]);
    - [float] is IEEE binary32 and [double] IEEE binary64, on the Standard
      Library's [spec_float], round to nearest even, no contraction;
    - a [vector] is a [list]; [operator[]] outside the bounds, a division by
      zero and a dereference of a null pointer are undefined behaviour, which
      the embedding renders as [None];
    - the output buffer of [process] is the caller's vector: a list, with
      the offset in it of the pointer the code writes through;
    - the routines of libm and FFTW ([cosf], [fftwf_malloc], the execution
      of a backward plan) are not part of the repository and are section
      variables. *)

From Stdlib Require Import ZArith Lia List Bool.
From Stdlib Require Import Floats.SpecFloat.
From stdpp Require Import base tactics option list.

Local Open Scope Z_scope.

(** ** Unsigned 32-bit arithmetic *)

Module U32.

Definition modulus : Z := 2 ^ 32.

(** Reduction of a mathematical integer to its [unsigned int] value. *)
Definition u32 (x : Z) : Z := x mod modulus.

Definition in_range (x : Z) : Prop := 0 <= x < modulus.

Definition add (x y : Z) : Z := u32 (x + y).
Definition sub (x y : Z) : Z := u32 (x - y).
Definition mul (x y : Z) : Z := u32 (x * y).

(** [x / y]; undefined for [y = 0]. *)
Definition div (x y : Z) : option Z :=
  if decide (y = 0) then None else Some (x / y).

(** [x & y] *)
Definition and (x y : Z) : Z := Z.land x y.

End U32.

(** ** Floating point *)

Module Float32.

Definition prec : Z := 24.
Definition emax : Z := 128.

Definition float := spec_float.

Definition zero : float := S754_zero false.
Definition one : float := SFone prec emax.

Definition add : float -> float -> float := SFadd prec emax.
Definition mul : float -> float -> float := SFmul prec emax.
Definition div : float -> float -> float := SFdiv prec emax.

(** [(float)n] for an unsigned [n]. *)
Definition of_uint (n : Z) : float := binary_normalize prec emax n 0 false.

End Float32.

Module Float64.

Definition prec : Z := 53.
Definition emax : Z := 1024.

Definition double := spec_float.

Definition mul : double -> double -> double := SFmul prec emax.
Definition div : double -> double -> double := SFdiv prec emax.
Definition sub : double -> double -> double := SFsub prec emax.

(** The [int] literal [2] promoted to [double]. *)
Definition of_int (n : Z) : double := binary_normalize prec emax n 0 false.

(** Promotion of a [float] to [double]; exact. *)
Definition of_float (x : Float32.float) : double :=
  match x with
  | S754_finite s m e => binary_normalize prec emax (cond_Zopp s (Zpos m)) e s
  | _ => x
  end.

(** Conversion of a [double] to [float]; rounds. *)
Definition to_float (x : double) : Float32.float :=
  match x with
  | S754_finite s m e =>
      binary_normalize Float32.prec Float32.emax (cond_Zopp s (Zpos m)) e s
  | _ => x
  end.

(** [M_PI] = 0x1.921fb54442d18p+1 *)
Definition M_PI : double := S754_finite false 7074237752028440 (-51).
(** the literal [0.54] = 0x1.147ae147ae148p-1 *)
Definition c0_54 : double := S754_finite false 4863887597560136 (-53).
(** the literal [0.46] = 0x1.d70a3d70a3d71p-2 *)
Definition c0_46 : double := S754_finite false 8286623314361713 (-54).

End Float64.

Abbreviation float := Float32.float.

(** ** Vectors, raw arrays and loops *)

(** The outcome of a statement that may have undefined behaviour is an
    [option]; the monad is stdpp's. *)

(** [v[i]], read. *)
Definition vget {A : Type} (v : list A) (i : Z) : option A :=
  if decide (0 <= i) then v !! Z.to_nat i else None.

(** [v[i] = x] *)
Definition vset {A : Type} (v : list A) (i : Z) (x : A) : option (list A) :=
  if decide (0 <= i < Z.of_nat (length v)) then Some (<[Z.to_nat i := x]> v)
  else None.

(** [v.resize(n)]: keeps the first [n] elements and pads with the default
    value [d] of the element type. *)
Definition resize {A : Type} (n : Z) (d : A) (v : list A) : list A :=
  take (Z.to_nat n) v ++ replicate (Z.to_nat n - length v)%nat d.

(** [for (unsigned int i = from; ...; i++) body], run [count] times. *)
Fixpoint for_loop {S : Type} (count : nat) (i : Z)
    (body : Z -> S -> option S) (s : S) : option S :=
  match count with
  | O => Some s
  | Datatypes.S k => s' ← body i s; for_loop k (i + 1) body s'
  end.

(** [for (unsigned int i = 0; i < bound; i++) body] *)
Definition for_upto {S : Type} (bound : Z) (body : Z -> S -> option S) (s : S)
    : option S :=
  for_loop (Z.to_nat bound) 0 body s.

(** ** The state of a [LowPass] *)

(** [fftwf_complex] is [float[2]]: real part at [0], imaginary part at [1]. *)
Definition fftwf_complex : Type := float * float.

Definition set_re (z : fftwf_complex) (x : float) : fftwf_complex := (x, snd z).
Definition set_im (z : fftwf_complex) (x : float) : fftwf_complex := (fst z, x).

(** [a[i][0] = x] and [a[i][1] = x] on a raw array. *)
Definition cset_re (a : list fftwf_complex) (i : Z) (x : float)
    : option (list fftwf_complex) :=
  z ← vget a i; vset a i (set_re z x).

Definition cset_im (a : list fftwf_complex) (i : Z) (x : float)
    : option (list fftwf_complex) :=
  z ← vget a i; vset a i (set_im z x).

(** A plan made by [fftwf_plan_dft_1d (n, spec, impulse, FFTW_BACKWARD, _)]:
    only its size is kept, the two arrays being the members [spec] and
    [impulse] throughout. *)
Record fftwf_plan : Type := { plan_n : Z }.

(** The base sub-object as [DspBlock]'s constructor leaves it: what the host
    pipeline holds for the block. *)
Record DspBlock : Type := {
  dsp_inputSampleRate : Z;
  dsp_inputChannels : Z;
  dsp_isRunning : bool;
  dsp_outputSampleRate : Z;
  dsp_outputChannels : Z
}.

(** The state of the object.  The members are declared in [lowpass.h],
    which is not under src/; the integer members are taken to be
    [unsigned int], as the parameters of the setters that are stored in
    them and as the locals of [recalculate] and [process] they are
    assigned to and compared with. *)
Record LowPass : Type := {
  (* members of the base class [DspBlock], behind [inputSampleRate()],
     [inputChannels()] and [isRunning()] or assigned by [init] *)
  inputSampleRate : Z;
  inputChannels : Z;
  isRunning : bool;
  _outputSampleRate : Z;
  _outputChannels : Z;
  (* members of [LowPass] *)
  _firLength : Z;
  spec : option (list fftwf_complex);      (* [None] is [NULL] *)
  impulse : option (list fftwf_complex);
  p : option fftwf_plan;
  window : list float;
  coeff : list float;
  fir : list (list float);
  _passband : Z;
  headpos : Z;
  decimationCount : Z;
  _decimation : Z;
  _reqOutputRate : Z
}.

(** Assignments to single members. *)

Definition set_outputSampleRate (x : Z) (st : LowPass) : LowPass :=
  {| inputSampleRate := inputSampleRate st;
     inputChannels := inputChannels st; isRunning := isRunning st;
     _outputSampleRate := x; _outputChannels := _outputChannels st;
     _firLength := _firLength st; spec := spec st;
     impulse := impulse st; p := p st; window := window st;
     coeff := coeff st; fir := fir st; _passband := _passband st;
     headpos := headpos st; decimationCount := decimationCount st;
     _decimation := _decimation st;
     _reqOutputRate := _reqOutputRate st |}.

Definition set_outputChannels (x : Z) (st : LowPass) : LowPass :=
  {| inputSampleRate := inputSampleRate st;
     inputChannels := inputChannels st; isRunning := isRunning st;
     _outputSampleRate := _outputSampleRate st; _outputChannels := x;
     _firLength := _firLength st; spec := spec st;
     impulse := impulse st; p := p st; window := window st;
     coeff := coeff st; fir := fir st; _passband := _passband st;
     headpos := headpos st; decimationCount := decimationCount st;
     _decimation := _decimation st;
     _reqOutputRate := _reqOutputRate st |}.

Definition set_spec (x : option (list fftwf_complex)) (st : LowPass) : LowPass :=
  {| inputSampleRate := inputSampleRate st;
     inputChannels := inputChannels st; isRunning := isRunning st;
     _outputSampleRate := _outputSampleRate st;
     _outputChannels := _outputChannels st;
     _firLength := _firLength st; spec := x; impulse := impulse st;
     p := p st; window := window st; coeff := coeff st; fir := fir st;
     _passband := _passband st; headpos := headpos st;
     decimationCount := decimationCount st;
     _decimation := _decimation st;
     _reqOutputRate := _reqOutputRate st |}.

Definition set_impulse (x : option (list fftwf_complex)) (st : LowPass) : LowPass :=
  {| inputSampleRate := inputSampleRate st;
     inputChannels := inputChannels st; isRunning := isRunning st;
     _outputSampleRate := _outputSampleRate st;
     _outputChannels := _outputChannels st;
     _firLength := _firLength st; spec := spec st; impulse := x;
     p := p st; window := window st; coeff := coeff st; fir := fir st;
     _passband := _passband st; headpos := headpos st;
     decimationCount := decimationCount st;
     _decimation := _decimation st;
     _reqOutputRate := _reqOutputRate st |}.

Definition set_p (x : option fftwf_plan) (st : LowPass) : LowPass :=
  {| inputSampleRate := inputSampleRate st;
     inputChannels := inputChannels st; isRunning := isRunning st;
     _outputSampleRate := _outputSampleRate st;
     _outputChannels := _outputChannels st;
     _firLength := _firLength st; spec := spec st;
     impulse := impulse st; p := x; window := window st;
     coeff := coeff st; fir := fir st; _passband := _passband st;
     headpos := headpos st; decimationCount := decimationCount st;
     _decimation := _decimation st;
     _reqOutputRate := _reqOutputRate st |}.

Definition set_window (x : list float) (st : LowPass) : LowPass :=
  {| inputSampleRate := inputSampleRate st;
     inputChannels := inputChannels st; isRunning := isRunning st;
     _outputSampleRate := _outputSampleRate st;
     _outputChannels := _outputChannels st;
     _firLength := _firLength st; spec := spec st;
     impulse := impulse st; p := p st; window := x; coeff := coeff st;
     fir := fir st; _passband := _passband st; headpos := headpos st;
     decimationCount := decimationCount st;
     _decimation := _decimation st;
     _reqOutputRate := _reqOutputRate st |}.

Definition set_coeff (x : list float) (st : LowPass) : LowPass :=
  {| inputSampleRate := inputSampleRate st;
     inputChannels := inputChannels st; isRunning := isRunning st;
     _outputSampleRate := _outputSampleRate st;
     _outputChannels := _outputChannels st;
     _firLength := _firLength st; spec := spec st;
     impulse := impulse st; p := p st; window := window st; coeff := x;
     fir := fir st; _passband := _passband st; headpos := headpos st;
     decimationCount := decimationCount st;
     _decimation := _decimation st;
     _reqOutputRate := _reqOutputRate st |}.

Definition set_fir (x : list (list float)) (st : LowPass) : LowPass :=
  {| inputSampleRate := inputSampleRate st;
     inputChannels := inputChannels st; isRunning := isRunning st;
     _outputSampleRate := _outputSampleRate st;
     _outputChannels := _outputChannels st;
     _firLength := _firLength st; spec := spec st;
     impulse := impulse st; p := p st; window := window st;
     coeff := coeff st; fir := x; _passband := _passband st;
     headpos := headpos st; decimationCount := decimationCount st;
     _decimation := _decimation st;
     _reqOutputRate := _reqOutputRate st |}.

Definition set_passband (x : Z) (st : LowPass) : LowPass :=
  {| inputSampleRate := inputSampleRate st;
     inputChannels := inputChannels st; isRunning := isRunning st;
     _outputSampleRate := _outputSampleRate st;
     _outputChannels := _outputChannels st;
     _firLength := _firLength st; spec := spec st;
     impulse := impulse st; p := p st; window := window st;
     coeff := coeff st; fir := fir st; _passband := x;
     headpos := headpos st; decimationCount := decimationCount st;
     _decimation := _decimation st;
     _reqOutputRate := _reqOutputRate st |}.

Definition set_headpos (x : Z) (st : LowPass) : LowPass :=
  {| inputSampleRate := inputSampleRate st;
     inputChannels := inputChannels st; isRunning := isRunning st;
     _outputSampleRate := _outputSampleRate st;
     _outputChannels := _outputChannels st;
     _firLength := _firLength st; spec := spec st;
     impulse := impulse st; p := p st; window := window st;
     coeff := coeff st; fir := fir st; _passband := _passband st;
     headpos := x; decimationCount := decimationCount st;
     _decimation := _decimation st;
     _reqOutputRate := _reqOutputRate st |}.

Definition set_decimationCount (x : Z) (st : LowPass) : LowPass :=
  {| inputSampleRate := inputSampleRate st;
     inputChannels := inputChannels st; isRunning := isRunning st;
     _outputSampleRate := _outputSampleRate st;
     _outputChannels := _outputChannels st;
     _firLength := _firLength st; spec := spec st;
     impulse := impulse st; p := p st; window := window st;
     coeff := coeff st; fir := fir st; _passband := _passband st;
     headpos := headpos st; decimationCount := x;
     _decimation := _decimation st;
     _reqOutputRate := _reqOutputRate st |}.

Definition set_decimation (x : Z) (st : LowPass) : LowPass :=
  {| inputSampleRate := inputSampleRate st;
     inputChannels := inputChannels st; isRunning := isRunning st;
     _outputSampleRate := _outputSampleRate st;
     _outputChannels := _outputChannels st;
     _firLength := _firLength st; spec := spec st;
     impulse := impulse st; p := p st; window := window st;
     coeff := coeff st; fir := fir st; _passband := _passband st;
     headpos := headpos st; decimationCount := decimationCount st;
     _decimation := x; _reqOutputRate := _reqOutputRate st |}.

Definition set_reqOutputRate (x : Z) (st : LowPass) : LowPass :=
  {| inputSampleRate := inputSampleRate st;
     inputChannels := inputChannels st; isRunning := isRunning st;
     _outputSampleRate := _outputSampleRate st;
     _outputChannels := _outputChannels st;
     _firLength := _firLength st; spec := spec st;
     impulse := impulse st; p := p st; window := window st;
     coeff := coeff st; fir := fir st; _passband := _passband st;
     headpos := headpos st; decimationCount := decimationCount st;
     _decimation := _decimation st; _reqOutputRate := x |}.

(** ** Construction and configuration *)

(** [#define FIR_LENGTH 64] (must be a power of 2). *)
Definition FIR_LENGTH : Z := 64.

(** Modelled from the spec: the macro [DEFAULT_SAMPLE_RATE] comes from a
    header that is not under src/; it is taken to be a non-zero
    [unsigned int], a default output rate. *)
Definition default_rate (DEFAULT_SAMPLE_RATE : Z) : Prop :=
  0 < DEFAULT_SAMPLE_RATE < U32.modulus.

(** [LowPass::LowPass].  [blk] is the base sub-object as [DspBlock]'s
    constructor leaves it, and [DEFAULT_SAMPLE_RATE] the macro of that name;
    both are declared outside this translation unit.  The vectors start
    empty. *)
Definition LowPass_ctor (DEFAULT_SAMPLE_RATE : Z) (blk : DspBlock) : LowPass :=
  {| inputSampleRate := dsp_inputSampleRate blk;
     inputChannels := dsp_inputChannels blk;
     isRunning := dsp_isRunning blk;
     _outputSampleRate := dsp_outputSampleRate blk;
     _outputChannels := dsp_outputChannels blk;
     _firLength := FIR_LENGTH; spec := None; impulse := None;
     p := None; window := []; coeff := []; fir := [];
     _passband := 0;
     headpos := 0;
     decimationCount := 0;
     _decimation := 0;
     _reqOutputRate := DEFAULT_SAMPLE_RATE |}.

(** [LowPass::setDecimation] *)
Definition setDecimation (n : Z) (st : LowPass) : LowPass :=
  if isRunning st then st
  else set_reqOutputRate 0 (set_decimation n st).

(** [LowPass::setOutputSampleRate] *)
Definition setOutputSampleRate (hz : Z) (st : LowPass) : LowPass :=
  if isRunning st then st
  else set_decimation 0 (set_reqOutputRate hz st).

(** ** Filter design *)

(** The double literals [1.0] and [0.0]. *)
Definition d1_0 : Float64.double := S754_finite false 4503599627370496 (-52).
Definition d0_0 : Float64.double := S754_zero false.

(** The two error messages of [init], as logged by [LOG_ERROR]. *)
Inductive init_error : Type :=
  | MustSpecifyRate   (* Must specify either decimation or output rate *)
  | NotIntegerMultiple. (* Input rate must be integer multiple of output rate *)

(** What [init] returns: [true], or [false] after one of the two messages. *)
Inductive init_result : Type :=
  | InitOk
  | InitFailed (e : init_error).

Definition init_returns (r : init_result) : bool :=
  match r with InitOk => true | InitFailed _ => false end.

Section Design.

(** libm's [cosf]. *)
Variable cosf : float -> float.

(** Element [i] of a block of [n] elements fresh from [fftwf_malloc]:
    whatever the allocator left there. *)
Variable fresh : Z -> Z -> fftwf_complex.

(** [(fftwf_complex* )fftwf_malloc(sizeof(fftwf_complex) * n)] *)
Definition fftwf_malloc (n : Z) : list fftwf_complex :=
  fresh n <$> seqZ 0 n.

(** Bin [k] of the output of a backward (unnormalised) plan of size [n]
    run on the input array. *)
Variable fftwf_dft_backward : Z -> list fftwf_complex -> Z -> fftwf_complex.

(** [fftwf_execute(p)]: fills the output array of the plan. *)
Definition fftwf_execute (pl : fftwf_plan) (input : list fftwf_complex)
    : list fftwf_complex :=
  (fftwf_dft_backward (plan_n pl) input) <$> seqZ 0 (plan_n pl).

(** The value first stored in [window[n]]:
    [0.54 - 0.46 * cosf(2 * M_PI * (float)n / (float)(_firLength - 1))],
    evaluated in [double] around the call of [cosf] and rounded to [float]
    by the assignment. *)
Definition hamming (firLength n : Z) : float :=
  let arg :=
    Float64.div
      (Float64.mul (Float64.mul (Float64.of_int 2) Float64.M_PI)
                   (Float64.of_float (Float32.of_uint n)))
      (Float64.of_float (Float32.of_uint (U32.sub firLength 1))) in
  Float64.to_float
    (Float64.sub Float64.c0_54
       (Float64.mul Float64.c0_46
          (Float64.of_float (cosf (Float64.to_float arg))))).

(** One turn of the loop of [recalculate] that writes the filter
    specification, on the array [spec]. *)
Definition write_spec_bin (firLength maxbin : Z) (n : Z)
    (a : list fftwf_complex) : option (list fftwf_complex) :=
  let mask := U32.sub firLength 1 in
  let mirror := U32.and (U32.sub firLength n) mask in
  let v := Float64.to_float (if decide (n < maxbin) then d1_0 else d0_0) in
  a ← cset_re a mirror v;
  a ← cset_re a n v;
  let z := Float64.to_float d0_0 in
  a ← cset_im a mirror z;
  cset_im a n z.

(** One turn of the loop of [recalculate] that fills [coeff]. *)
Definition write_coeff (firLength : Z) (imp : list fftwf_complex)
    (win : list float) (n : Z) (co : list float) : option (list float) :=
  let bin := U32.and (U32.add n (firLength / 2)) (U32.sub firLength 1) in
  z ← vget imp bin;
  w ← vget win n;
  vset co n (Float32.mul (fst z) w).

(** The cutoff bin: [_firLength * _passband / inputSampleRate() / 2]. *)
Definition cutoff_bin (st : LowPass) : option Z :=
  q ← U32.div (U32.mul (_firLength st) (_passband st)) (inputSampleRate st);
  Some (q / 2).

(** [LowPass::recalculate] (the final dump of the coefficients to the
    debug log is omitted). *)
Definition recalculate (st : LowPass) : option LowPass :=
  maxbin ← cutoff_bin st;
  a ← spec st;
  a ← for_upto (U32.add (_firLength st / 2) 1)
        (write_spec_bin (_firLength st) maxbin) a;
  pl ← p st;
  _ ← impulse st;
  let imp := fftwf_execute pl a in
  let co := resize (_firLength st) Float32.zero (coeff st) in
  co ← for_upto (_firLength st)
         (write_coeff (_firLength st) imp (window st)) co;
  Some (set_coeff co (set_impulse (Some imp) (set_spec (Some a) st))).

(** [LowPass::setPassband] *)
Definition setPassband (hz : Z) (st : LowPass) : option LowPass :=
  let st := set_passband hz st in
  if isRunning st then recalculate st else Some st.

(** One turn of the loop of [init] that pre-calculates the window. *)
Definition write_window (firLength : Z) (n : Z) (win : list float)
    : option (list float) :=
  win ← vset win n (hamming firLength n);
  x ← vget win n;
  vset win n (Float32.div x (Float32.of_uint firLength)).

(** [LowPass::init] from the integrality test on. *)
Definition init_checked (st : LowPass) : option (init_result * LowPass) :=
  let st := set_outputChannels (inputChannels st) st in
  if decide (U32.mul (_outputSampleRate st) (_decimation st)
             <> inputSampleRate st)
  then Some (InitFailed NotIntegerMultiple, st)
  else
    let st := set_decimationCount 0 st in
    let st := set_spec (Some (fftwf_malloc (_firLength st))) st in
    let st := set_impulse (Some (fftwf_malloc (_firLength st))) st in
    let st := set_p (Some {| plan_n := _firLength st |}) st in
    let st := set_window (resize (_firLength st) Float32.zero (window st)) st in
    win ← for_upto (_firLength st) (write_window (_firLength st)) (window st);
    let st := set_window win st in
    let st := set_fir (resize (inputChannels st) [] (fir st)) st in
    let st := set_fir (resize (_firLength st) Float32.zero <$> fir st) st in
    let st := set_headpos 0 st in
    st ← recalculate st;
    Some (InitOk, st).

(** [LowPass::init] *)
Definition init (st : LowPass) : option (init_result * LowPass) :=
  if decide (0 < _reqOutputRate st) then
    let st := set_outputSampleRate (_reqOutputRate st) st in
    d ← U32.div (inputSampleRate st) (_outputSampleRate st);
    init_checked (set_decimation d st)
  else if decide (0 < _decimation st) then
    o ← U32.div (inputSampleRate st) (_decimation st);
    init_checked (set_outputSampleRate o st)
  else
    Some (InitFailed MustSpecifyRate, st).

End Design.

(** ** Shutdown *)

(** [LowPass::deinit].  The plan is destroyed and the two arrays are freed;
    the members [p], [spec] and [impulse] keep their values, which nothing
    may use before the next [init]: like [NULL] they are rendered as [None].
    Destroying a plan that was never made, or was destroyed already, is
    undefined.  The vectors [window] and [coeff] and every ring are swapped
    with an empty vector; [fir] keeps its length. *)
Definition deinit (st : LowPass) : option LowPass :=
  _ ← p st;
  let st := set_p None st in
  let st := set_spec None st in
  let st := set_impulse None st in
  let st := set_window [] st in
  let st := set_coeff [] st in
  Some (set_fir ((fun _ => []) <$> fir st) st).

(** ** Streaming convolution *)

(** The loop [for c: fir[c][headpos] = *in++] on one input frame. *)
Definition store_frame (channels : Z) (frame : list float) (st : LowPass)
    : option LowPass :=
  for_upto channels
    (fun c st =>
       x ← vget frame c;
       h ← vget (fir st) c;
       h ← vset h (headpos st) x;
       f ← vset (fir st) c h;
       Some (set_fir f st))
    st.

(** [process] writes through the pointer [out], which starts at
    [outBuffer.data()] and is moved on by [channels] after every output
    frame; the buffer is the caller's, and [process] neither resizes it nor
    looks at its size.  Below [buf] is that buffer and [outpos] the offset
    of [out] in it: [out[c]] is the element [outpos + c] of [buf], and an
    access outside [buf] is undefined. *)

(** The loop [for c: out[c] = 0.0]. *)
Definition clear_frame (channels outpos : Z) (buf : list float)
    : option (list float) :=
  for_upto channels
    (fun c buf => vset buf (outpos + c) (Float64.to_float d0_0))
    buf.

(** The loop over the taps; [idx] is the running index in the ring. *)
Definition accumulate_taps (channels : Z) (st : LowPass) (outpos : Z)
    (buf : list float) : option (list float * Z) :=
  for_upto (_firLength st)
    (fun tap '(buf, idx) =>
       weight ← vget (coeff st) tap;
       buf ← for_upto channels
               (fun c buf =>
                  h ← vget (fir st) c;
                  x ← vget h idx;
                  y ← vget buf (outpos + c);
                  vset buf (outpos + c) (Float32.add y (Float32.mul weight x)))
               buf;
       Some (buf, U32.and (U32.sub idx 1) (U32.sub (_firLength st) 1)))
    (buf, headpos st).

(** The body of the [while] loop of [process] on one input frame: the new
    state, the new offset of [out] and the output buffer. *)
Definition process_frame (channels : Z) (frame : list float) (st : LowPass)
    (outpos : Z) (buf : list float) : option (LowPass * Z * list float) :=
  st ← store_frame channels frame st;
  let st := set_decimationCount (U32.add (decimationCount st) 1) st in
  '(st, outpos, buf) ←
    (if decide (decimationCount st = _decimation st) then
       buf ← clear_frame channels outpos buf;
       '(buf, _) ← accumulate_taps channels st outpos buf;
       Some (set_decimationCount 0 st, outpos + channels, buf)
     else Some (st, outpos, buf));
  Some (set_headpos (U32.and (U32.add (headpos st) 1)
                             (U32.sub (_firLength st) 1)) st,
        outpos, buf).

(** The [while (inframes--)] loop: [input] is what lies from [in] on. *)
Fixpoint process_loop (inframes : nat) (channels : Z) (input : list float)
    (st : LowPass) (outpos : Z) (buf : list float)
    : option (LowPass * Z * list float) :=
  match inframes with
  | O => Some (st, outpos, buf)
  | S k =>
      '(st, outpos, buf) ←
        process_frame channels (take (Z.to_nat channels) input) st outpos buf;
      process_loop k channels (drop (Z.to_nat channels) input) st outpos buf
  end.

(** [LowPass::process]: the value returned, the new state and the output
    buffer after the call.  The element type [sample_t] of the two vectors
    is declared outside src/; it is taken to be [float], the type both
    [data()] pointers are cast to. *)
Definition process (inBuffer outBuffer : list float) (st : LowPass)
    : option (bool * LowPass * list float) :=
  let channels := inputChannels st in
  let insize := U32.u32 (Z.of_nat (length inBuffer)) in
  inframes ← U32.div insize channels;
  '(st, _, buf) ←
    process_loop (Z.to_nat inframes) channels inBuffer st 0 outBuffer;
  Some (true, st, buf).

(** ** The reference definitions of the design

    These follow the text of the specification (sections 4.2 and 4.3), not
    the code; the theorems below compare the two. *)

Module Reference.

(** [maxbin = floor (tapCount * passbandHz / inputSampleRate / 2)], the
    quotient being that of the rationals. *)
Definition maxbin (tapCount passbandHz inputSampleRate : Z) : Z :=
  (tapCount * passbandHz) / (inputSampleRate * 2).

(** Real part [1.0] if [n < maxbin] else [0.0], imaginary part [0]. *)
Definition boxcar (maxbin n : Z) : fftwf_complex :=
  (if decide (n < maxbin) then Float32.one else Float32.zero, Float32.zero).

(** [DesignSpectrum]: the value for each [n] in [[0, tapCount/2]] stands at
    bin [n] and, mirrored, at bin [(tapCount - n) mod tapCount]. *)
Definition DesignSpectrum (tapCount maxbin : Z) (S : list fftwf_complex)
    : Prop :=
  Z.of_nat (length S) = tapCount /\
  forall n, 0 <= n <= tapCount / 2 ->
    vget S n = Some (boxcar maxbin n) /\
    vget S ((tapCount - n) mod tapCount) = Some (boxcar maxbin n).

Section Window.

Variable cosf : float -> float.

(** [WindowCoefficients[n] =
     (0.54 - 0.46 * cos (2*pi*n / (tapCount-1))) / tapCount] *)
Definition WindowCoefficients (tapCount n : Z) : float :=
  Float32.div (hamming cosf tapCount n) (Float32.of_uint tapCount).

Variable inverse_dft : Z -> list fftwf_complex -> Z -> fftwf_complex.

(** [TapCoefficients[n]]: the real component of the inverse transform of
    the spectrum read at bin [(n + tapCount/2) mod tapCount], multiplied
    by [WindowCoefficients[n]]. *)
Definition TapCoefficients (tapCount : Z) (S : list fftwf_complex) (n : Z)
    : float :=
  Float32.mul (fst (inverse_dft tapCount S ((n + tapCount / 2) mod tapCount)))
              (WindowCoefficients tapCount n).

End Window.

(** The first [count] terms of
    [sum over tap of TapCoefficients[tap] * history[(headpos - tap) mod tapCount]],
    added in the order of the taps. *)
Definition convolve_terms (taps history : list float)
    (tapCount headpos count : Z) : float :=
  foldl
    (fun sum tap =>
       Float32.add sum
         (Float32.mul (default Float32.zero (vget taps tap))
            (default Float32.zero
               (vget history ((headpos - tap) mod tapCount)))))
    Float32.zero (seqZ 0 count).

(** The output sample of one channel: the sum over [tap] in
    [[0, tapCount)]. *)
Definition convolve (taps history : list float) (tapCount headpos : Z)
    : float :=
  convolve_terms taps history tapCount headpos tapCount.

End Reference.

(** ** Closed forms

    What the loops of the design compute, written without loops; the lemmas
    of the second part show that the code computes exactly these. *)

(** The spectrum: bin [k] holds the value of [k] in the lower half and of
    [tapCount - k] in the upper half. *)
Definition mirrored_boxcar (tapCount maxbin k : Z) : fftwf_complex :=
  Reference.boxcar maxbin
    (if decide (k <= tapCount / 2) then k else tapCount - k).

(** The cutoff bin as [unsigned int] arithmetic yields it. *)
Definition wrapped_maxbin (tapCount passbandHz inputSampleRate : Z) : Z :=
  U32.mul tapCount passbandHz / inputSampleRate / 2.

(** The ring of channel [c]. *)
Definition ring (st : LowPass) (c : Z) : list float :=
  default [] (vget (fir st) c).

(** The ring of channel [c] once the sample of the frame is stored at
    [headpos], and all the rings. *)
Definition stored_ring (st : LowPass) (frame : list float) (c : Z)
    : list float :=
  <[Z.to_nat (headpos st) := default Float32.zero (vget frame c)]>
    (default [] (vget (fir st) c)).

Definition stored_rings (st : LowPass) (frame : list float)
    : list (list float) :=
  stored_ring st frame <$> seqZ 0 (inputChannels st).

(** The state after one input frame and the output frame it yields, if
    any. *)
Definition after_frame (frame : list float) (st : LowPass) : LowPass :=
  set_headpos ((headpos st + 1) mod _firLength st)
    (set_decimationCount
       (if decide (decimationCount st + 1 = _decimation st) then 0
        else decimationCount st + 1)
       (set_fir (stored_rings st frame) st)).

Definition frame_output (frame : list float) (st : LowPass)
    : option (list float) :=
  if decide (decimationCount st + 1 = _decimation st) then
    Some ((fun h =>
             Reference.convolve (coeff st) h (_firLength st) (headpos st))
            <$> stored_rings st frame)
  else None.

(** The buffer [buf] with the samples [f] written from the offset [outpos]
    on; the rest of the buffer is as it was. *)
Definition written (f : list float) (outpos : Z) (buf : list float)
    : list float :=
  take (Z.to_nat outpos) buf ++ f ++ drop (Z.to_nat outpos + length f) buf.

(** The state after [count] input frames and the output frames they yield,
    in the order of writing. *)
Fixpoint after_frames (count : nat) (channels : Z) (input : list float)
    (st : LowPass) : LowPass * list (list float) :=
  match count with
  | O => (st, [])
  | S k =>
      let frame := take (Z.to_nat channels) input in
      let rest :=
        after_frames k channels (drop (Z.to_nat channels) input)
          (after_frame frame st) in
      (fst rest, option_list (frame_output frame st) ++ snd rest)
  end.

Section ClosedForms.

Variable cosf : float -> float.
Variable fftwf_dft_backward : Z -> list fftwf_complex -> Z -> fftwf_complex.

(** The state [recalculate] leaves. *)
Definition designed (st : LowPass) : LowPass :=
  let n := _firLength st in
  let a :=
    mirrored_boxcar n (wrapped_maxbin n (_passband st) (inputSampleRate st))
      <$> seqZ 0 n in
  set_coeff
    (Reference.TapCoefficients cosf fftwf_dft_backward n a <$> seqZ 0 n)
    (set_impulse (Some (fftwf_execute fftwf_dft_backward {| plan_n := n |} a))
       (set_spec (Some a) st)).

End ClosedForms.

(** The state at the integrality test of [init]: the rates as derived from
    the member that was supplied. *)
Definition with_derived_rates (st : LowPass) : LowPass :=
  if decide (0 < _reqOutputRate st) then
    set_decimation (inputSampleRate st / _reqOutputRate st)
      (set_outputSampleRate (_reqOutputRate st) st)
  else
    set_outputSampleRate (inputSampleRate st / _decimation st) st.

(** The member that was supplied, by which [init] divides the input rate. *)
Definition supplied (st : LowPass) : Z :=
  if decide (0 < _reqOutputRate st) then _reqOutputRate st else _decimation st.

(** ** Well-formed states *)

(** [_firLength] is a power of two that fits [unsigned int]. *)
Definition power_of_two (n : Z) : Prop := exists k, 0 <= k < 32 /\ n = 2 ^ k.

(** The integer members hold [unsigned int] values and the tap count is a
    power of two; this is all [init] relies on. *)
Record wf_config (st : LowPass) : Prop := {
  wfc_firLength : power_of_two (_firLength st);
  wfc_inputSampleRate : U32.in_range (inputSampleRate st);
  wfc_inputChannels : U32.in_range (inputChannels st);
  wfc_passband : U32.in_range (_passband st);
  wfc_decimation : U32.in_range (_decimation st);
  wfc_reqOutputRate : U32.in_range (_reqOutputRate st)
}.

(** The design side of a started filter: the arrays of FFTW are allocated,
    the plan is made and the window is computed. *)
Record wf_design (cosf : float -> float) (st : LowPass) : Prop := {
  wfd_firLength : power_of_two (_firLength st);
  wfd_inputSampleRate : 0 < inputSampleRate st < U32.modulus;
  wfd_spec : exists a, spec st = Some a /\ Z.of_nat (length a) = _firLength st;
  wfd_impulse : is_Some (impulse st);
  wfd_p : p st = Some {| plan_n := _firLength st |};
  wfd_window :
    window st =
    Reference.WindowCoefficients cosf (_firLength st) <$> seqZ 0 (_firLength st)
}.

(** The streaming side of a started filter: one ring of [_firLength] samples
    per channel, the cursor inside the ring, the counter below the
    decimation factor. *)
Record wf_stream (st : LowPass) : Prop := {
  wfs_firLength : power_of_two (_firLength st);
  wfs_inputChannels : 0 < inputChannels st < U32.modulus;
  wfs_decimation : 0 < _decimation st < U32.modulus;
  wfs_decimationCount : 0 <= decimationCount st < _decimation st;
  wfs_headpos : 0 <= headpos st < _firLength st;
  wfs_coeff : Z.of_nat (length (coeff st)) = _firLength st;
  wfs_fir_channels : Z.of_nat (length (fir st)) = inputChannels st;
  wfs_fir_length :
    Forall (fun h => Z.of_nat (length h) = _firLength st) (fir st)
}.

(** What a successful [init] leaves of the state [st] at the integrality
    test: the configuration is kept, the counters are zeroed, one ring per
    channel is sized. *)
Record started_from (st st' : LowPass) : Prop := {
  sf_inputSampleRate : inputSampleRate st' = inputSampleRate st;
  sf_inputChannels : inputChannels st' = inputChannels st;
  sf_isRunning : isRunning st' = isRunning st;
  sf_outputSampleRate : _outputSampleRate st' = _outputSampleRate st;
  sf_outputChannels : _outputChannels st' = inputChannels st;
  sf_firLength : _firLength st' = _firLength st;
  sf_passband : _passband st' = _passband st;
  sf_decimation : _decimation st' = _decimation st;
  sf_reqOutputRate : _reqOutputRate st' = _reqOutputRate st;
  sf_decimationCount : decimationCount st' = 0;
  sf_headpos : headpos st' = 0;
  sf_coeff : Z.of_nat (length (coeff st')) = _firLength st;
  sf_fir :
    fir st' =
    resize (_firLength st) Float32.zero <$> resize (inputChannels st) [] (fir st)
}.

Section Outcomes.

Variable cosf : float -> float.
Variable fresh : Z -> Z -> fftwf_complex.
Variable fftwf_dft_backward : Z -> list fftwf_complex -> Z -> fftwf_complex.

(** The three outcomes of [init] on a well-formed configuration with a
    positive input rate. *)
Inductive init_outcome (st : LowPass) : Prop :=
  | outcome_unset :
      _reqOutputRate st = 0 -> _decimation st = 0 ->
      init cosf fresh fftwf_dft_backward st =
        Some (InitFailed MustSpecifyRate, st) ->
      init_outcome st
  | outcome_inexact :
      0 < supplied st ->
      inputSampleRate st mod supplied st <> 0 ->
      init cosf fresh fftwf_dft_backward st =
        Some (InitFailed NotIntegerMultiple,
              set_outputChannels (inputChannels st) (with_derived_rates st)) ->
      init_outcome st
  | outcome_started st' :
      0 < supplied st ->
      inputSampleRate st mod supplied st = 0 ->
      init cosf fresh fftwf_dft_backward st = Some (InitOk, st') ->
      wf_design cosf st' ->
      started_from (with_derived_rates st) st' ->
      init_outcome st.

End Outcomes.

(** What [process] keeps of a started filter: the streaming invariant and
    the configuration it runs with. *)
Definition streams (channels tapCount factor : Z) (taps : list float)
    (st : LowPass) : Prop :=
  wf_stream st /\ inputChannels st = channels /\ _firLength st = tapCount /\
  _decimation st = factor /\ coeff st = taps.

(** The host pipeline calling [process] on one block after the other, each
    call with an input block and an output buffer; the output buffers after
    the calls, in order. *)
Fixpoint process_calls (calls : list (list float * list float))
    (st : LowPass) : option (LowPass * list (list float)) :=
  match calls with
  | [] => Some (st, [])
  | (inBuffer, outBuffer) :: rest =>
      '(_, st, buf) ← process inBuffer outBuffer st;
      '(st, bufs) ← process_calls rest st;
      Some (st, buf :: bufs)
  end.

(** The number of frames [process] reads of a block -- its size goes
    through an [unsigned int] --, and of a sequence of blocks. *)
Definition frames_of (channels : Z) (block : list float) : Z :=
  U32.u32 (Z.of_nat (length block)) / channels.


(** The output frames due when [inframes] input frames are read with the
    counter at [count]: one each time the counter reaches [factor]. *)
Definition frames_due (factor count inframes : Z) : Z :=
  (count + inframes) / factor.

(** The output buffer has room for the frames a call of [process] on
    [inBuffer] writes. *)
Definition has_room (st : LowPass) (inBuffer outBuffer : list float) : Prop :=
  frames_due (_decimation st) (decimationCount st)
    (frames_of (inputChannels st) inBuffer) * inputChannels st
  <= Z.of_nat (length outBuffer).


(** ** The samples behind a ring *)

(** The ring of channel [c] holds the samples [past] of the channel, the
    latest first: the sample of [j] frames ago lies [j + 1] places behind
    [headpos], and zeros lie where no sample was stored yet. *)
Definition holds_past (st : LowPass) (c : Z) (past : list float) : Prop :=
  forall j, 0 <= j < _firLength st ->
    vget (ring st c) ((headpos st - 1 - j) mod _firLength st) =
    Some (default Float32.zero (vget past j)).

(** [sum over tap of taps[tap] * past[tap]], added in the order of the
    taps. *)
Definition fir_sum (taps past : list float) (tapCount : Z) : float :=
  foldl
    (fun sum tap =>
       Float32.add sum
         (Float32.mul (default Float32.zero (vget taps tap))
            (default Float32.zero (vget past tap))))
    Float32.zero (seqZ 0 tapCount).

(** The samples of channel [c] in the first [count] frames of a block of
    interleaved frames, the latest first. *)
Definition channel_samples (channels c count : Z) (block : list float)
    : list float :=
  reverse
    ((fun k => default Float32.zero (vget block (k * channels + c)))
       <$> seqZ 0 count).

(** ** A concrete environment

    Simple stand-ins for the external routines and for the host, on which the
    model can be run; no statement below depends on them. *)

Module Sample.

Definition DEFAULT_SAMPLE_RATE : Z := 48000.

(** The two leading terms of the cosine series. *)
Definition cosf (x : float) : float :=
  SFsub Float32.prec Float32.emax Float32.one
    (Float32.div (Float32.mul x x) (Float32.of_uint 2)).

(** A zeroed block. *)
Definition fresh (n i : Z) : fftwf_complex := (Float32.zero, Float32.zero).

(** The sum of the real parts in every bin: a transform that is exact at
    bin 0 only. *)
Definition fftwf_dft_backward (n : Z) (a : list fftwf_complex) (k : Z)
    : fftwf_complex :=
  (foldl (fun s z => Float32.add s (fst z)) Float32.zero a, Float32.zero).

(** A stereo block at 48 kHz, as the host hands it over. *)
Definition block (running : bool) : DspBlock :=
  {| dsp_inputSampleRate := 48000; dsp_inputChannels := 2;
     dsp_isRunning := running;
     dsp_outputSampleRate := 0; dsp_outputChannels := 0 |}.

Abbreviation init := (init cosf fresh fftwf_dft_backward).
Abbreviation recalculate := (recalculate fftwf_dft_backward).
Abbreviation setPassband := (setPassband fftwf_dft_backward).

(** The host flags the block as running once [init] has returned [true]. *)
Definition started (st : LowPass) : LowPass :=
  {| inputSampleRate := inputSampleRate st;
     inputChannels := inputChannels st; isRunning := true;
     _outputSampleRate := _outputSampleRate st;
     _outputChannels := _outputChannels st;
     _firLength := _firLength st; spec := spec st;
     impulse := impulse st; p := p st; window := window st;
     coeff := coeff st; fir := fir st; _passband := _passband st;
     headpos := headpos st; decimationCount := decimationCount st;
     _decimation := _decimation st;
     _reqOutputRate := _reqOutputRate st |}.

(** A filter configured for a passband of 6 kHz and a decimation by 2. *)
Definition configured : LowPass :=
  setDecimation 2
    (set_passband 6000 (LowPass_ctor DEFAULT_SAMPLE_RATE (block false))).

(** The state [init] leaves it in, and the same once the host has
    flagged it as running. *)
Definition initialised : LowPass :=
  match init configured with
  | Some (_, st) => st
  | None => configured
  end.

Definition running : LowPass := started initialised.

(** The running filter asked for a passband of 2^26 Hz. *)
Definition wide : LowPass := set_passband 67108864 running.

(** A filter asked to decimate 48 kHz by 239. *)
Definition odd_decimation : LowPass :=
  setDecimation 239 (LowPass_ctor DEFAULT_SAMPLE_RATE (block false)).

(** Some samples. *)
Definition half : float := S754_finite false 8388608 (-24).
Definition frame : list float := [Float32.one; half].
Definition five_samples : list float :=
  [Float32.one; half; half; Float32.one; Float32.one].

(** Blocks of [2^32] and of [2^32 + 1] samples. *)
Definition huge : list float :=
  replicate (Z.to_nat 4294967296) Float32.zero.
Definition huge_odd : list float :=
  replicate (Z.to_nat 4294967297) Float32.zero.

(** A block without an input rate, asked to decimate by 2. *)
Definition no_rate : LowPass :=
  setDecimation 2
    (LowPass_ctor DEFAULT_SAMPLE_RATE
       {| dsp_inputSampleRate := 0; dsp_inputChannels := 2;
          dsp_isRunning := false;
          dsp_outputSampleRate := 0; dsp_outputChannels := 0 |}).

(** The running filter asked for a passband of 1 kHz. *)
Definition narrow : LowPass := set_passband 1000 running.

(** The running filter initialised a second time; stopped; stopped and
    initialised again. *)
Definition reinitialised : LowPass :=
  match init running with
  | Some (_, st) => st
  | None => running
  end.

Definition stopped : LowPass := default running (deinit running).

Definition restarted : LowPass :=
  match init stopped with
  | Some (_, st) => st
  | None => stopped
  end.

(** Two frames and three more samples. *)
Definition two_frames : list float := [Float32.one; half; half; Float32.one].
Definition three_samples : list float :=
  [Float32.one; Float32.one; Float32.one].

(** The running filter after one frame: the next frame completes a
    decimation period. *)
Definition primed : LowPass := after_frame frame running.

(** Output buffers with room for one frame and for two. *)
Definition out_frame : list float := [Float32.zero; Float32.zero].
Definition out_frames : list float :=
  [Float32.zero; Float32.zero; Float32.zero; Float32.zero].

(** The blocks with the output buffers the host passes along. *)
Definition calls : list (list float * list float) :=
  [ ([Float32.one; half; half; Float32.one], out_frame);
    ([Float32.one; Float32.one; Float32.one], []);
    ([half; half], out_frame) ].

End Sample.

(** * Properties *)

(** ** Examples of the arithmetic *)

Example one_is_1 : Float32.one = S754_finite false 8388608 (-23).
Proof. reflexivity. Qed.

Example c0_54_rounds : Float64.div (Float64.of_int 54) (Float64.of_int 100) = Float64.c0_54.
Proof. vm_compute. reflexivity. Qed.

Example c0_46_rounds : Float64.div (Float64.of_int 46) (Float64.of_int 100) = Float64.c0_46.
Proof. vm_compute. reflexivity. Qed.

Example float_of_64 : Float32.of_uint 64 = S754_finite false 8388608 (-17).
Proof. vm_compute. reflexivity. Qed.

Example promote_one : Float64.to_float (Float64.of_float Float32.one) = Float32.one.
Proof. vm_compute. reflexivity. Qed.

(** ** Basic facts *)

Section Arithmetic.

Lemma modulus_eq : U32.modulus = 4294967296.
Proof. reflexivity. Qed.

Lemma u32_small x : U32.in_range x -> U32.u32 x = x.
Proof. unfold U32.in_range, U32.u32. intros. by apply Z.mod_small. Qed.

Lemma u32_in_range x : U32.in_range (U32.u32 x).
Proof. unfold U32.in_range, U32.u32. apply Z.mod_pos_bound. reflexivity. Qed.

Lemma power_of_two_bounds n : power_of_two n -> 1 <= n < U32.modulus.
Proof.
  intros (k & Hk & ->). rewrite modulus_eq. split.
  - pose proof (Z.pow_pos_nonneg 2 k). lia.
  - change 4294967296 with (2 ^ 32). apply Z.pow_lt_mono_r; lia.
Qed.

Lemma power_of_two_half n : power_of_two n -> n = 1 \/ n = 2 * (n / 2).
Proof.
  intros (k & Hk & ->).
  destruct (decide (k = 0)) as [->|]; [by left|right].
  assert (2 ^ k = 2 ^ (k - 1) * 2) as ->.
  { rewrite (Z.mul_comm _ 2), <- (Z.pow_succ_r 2 (k - 1)) by lia. f_equal. lia. }
  rewrite Z.div_mul by lia. lia.
Qed.

(** Masking with [n - 1] is the remainder modulo [n]. *)
Lemma and_mask x n :
  power_of_two n -> U32.and (U32.u32 x) (U32.sub n 1) = x mod n.
Proof.
  intros Hn. pose proof (power_of_two_bounds _ Hn) as Hb.
  destruct Hn as (k & Hk & ->).
  unfold U32.and, U32.sub.
  rewrite (u32_small (2 ^ k - 1)) by (unfold U32.in_range; lia).
  replace (2 ^ k - 1) with (Z.ones k) by (rewrite Z.ones_equiv; lia).
  rewrite Z.land_ones by lia. unfold U32.u32, U32.modulus.
  apply Z.mod_mod_divide.
  exists (2 ^ (32 - k)). rewrite <- Z.pow_add_r by lia. f_equal. lia.
Qed.

End Arithmetic.

Section Vectors.

Context {A : Type}.
Implicit Types (v : list A) (i j : Z) (x : A).

Lemma vget_lookup v i : 0 <= i -> vget v i = v !! Z.to_nat i.
Proof. intros. unfold vget. by rewrite decide_True. Qed.

Lemma vget_is_Some v i : 0 <= i < Z.of_nat (length v) -> is_Some (vget v i).
Proof.
  intros. rewrite vget_lookup by lia. apply lookup_lt_is_Some. lia.
Qed.

Lemma vget_Some_lt v i x : vget v i = Some x -> 0 <= i < Z.of_nat (length v).
Proof.
  unfold vget. case_decide; [|done]. intros Hl%lookup_lt_Some. lia.
Qed.

Lemma vset_is_Some v i x :
  0 <= i < Z.of_nat (length v) -> vset v i x = Some (<[Z.to_nat i := x]> v).
Proof. intros. unfold vset. by rewrite decide_True. Qed.

Lemma vset_Some v i x v' :
  vset v i x = Some v' ->
  0 <= i < Z.of_nat (length v) /\ v' = <[Z.to_nat i := x]> v.
Proof. unfold vset. case_decide; [|done]. by intros [= <-]. Qed.

Lemma vget_insert_eq v i x :
  0 <= i < Z.of_nat (length v) -> vget (<[Z.to_nat i := x]> v) i = Some x.
Proof.
  intros. rewrite vget_lookup by lia. apply list_lookup_insert_eq. lia.
Qed.

Lemma vget_insert_ne v i j x :
  0 <= i -> 0 <= j -> i <> j -> vget (<[Z.to_nat i := x]> v) j = vget v j.
Proof.
  intros. rewrite !vget_lookup by lia. apply list_lookup_insert_ne. lia.
Qed.

(** A vector is determined by its length and its elements. *)
Lemma vector_eq_tabulate (f : Z -> A) n v :
  Z.of_nat (length v) = n ->
  (forall i, 0 <= i < n -> vget v i = Some (f i)) ->
  v = f <$> seqZ 0 n.
Proof.
  intros Hlen Hget. apply list_eq. intros i.
  rewrite list_lookup_fmap.
  destruct (decide (Z.of_nat i < n)) as [Hi|Hi].
  - specialize (Hget (Z.of_nat i)). rewrite vget_lookup, Nat2Z.id in Hget by lia.
    rewrite Hget by lia.
    assert (seqZ 0 n !! i = Some (Z.of_nat i)) as ->; [|done].
    apply lookup_seqZ. lia.
  - rewrite (lookup_ge_None_2 v) by lia.
    rewrite (lookup_ge_None_2 (seqZ 0 n)); [done|].
    rewrite length_seqZ. lia.
Qed.

Lemma vget_tabulate (f : Z -> A) n i :
  0 <= i < n -> vget (f <$> seqZ 0 n) i = Some (f i).
Proof.
  intros. rewrite vget_lookup, list_lookup_fmap by lia.
  assert (seqZ 0 n !! Z.to_nat i = Some i) as ->; [|done].
  apply lookup_seqZ. lia.
Qed.

Lemma length_tabulate (f : Z -> A) n :
  0 <= n -> Z.of_nat (length (f <$> seqZ 0 n)) = n.
Proof. intros. rewrite length_fmap, length_seqZ. lia. Qed.

Lemma length_resize n (d : A) v : 0 <= n -> Z.of_nat (length (resize n d v)) = n.
Proof.
  intros. unfold resize. rewrite length_app, length_take, length_replicate. lia.
Qed.

End Vectors.

(** The monad law used to step through a sequence of statements. *)
Lemma bind_Some {A B : Type} (f : A -> option B) (x : A) : Some x ≫= f = f x.
Proof. reflexivity. Qed.

Section Loops.

Context {S : Type}.

(** The rule of the loop invariant for a counted loop. *)
Lemma for_loop_invariant (P : Z -> S -> Prop) body count from s :
  P from s ->
  (forall i s, from <= i < from + Z.of_nat count -> P i s ->
     exists s', body i s = Some s' /\ P (i + 1) s') ->
  exists s', for_loop count from body s = Some s' /\
             P (from + Z.of_nat count) s'.
Proof.
  revert from s. induction count as [|k IH]; intros from s HP Hbody.
  - exists s. split; [done|]. by replace (from + Z.of_nat 0) with from by lia.
  - destruct (Hbody from s) as (s1 & Hs1 & HP1); [lia|done|].
    destruct (IH (from + 1) s1) as (s2 & Hs2 & HP2); [done| |].
    { intros i s' Hi. apply Hbody. lia. }
    exists s2. split.
    + simpl. rewrite Hs1. simpl. done.
    + by replace (from + Z.of_nat (Datatypes.S k)) with (from + 1 + Z.of_nat k) by lia.
Qed.

Lemma for_upto_invariant (P : Z -> S -> Prop) body bound s :
  0 <= bound ->
  P 0 s ->
  (forall i s, 0 <= i < bound -> P i s ->
     exists s', body i s = Some s' /\ P (i + 1) s') ->
  exists s', for_upto bound body s = Some s' /\ P bound s'.
Proof.
  intros Hb HP Hbody.
  destruct (for_loop_invariant P body (Z.to_nat bound) 0 s) as (s' & ? & ?);
    [done| |].
  { intros i s' Hi. apply Hbody. lia. }
  exists s'. split; [done|]. by replace bound with (0 + Z.of_nat (Z.to_nat bound)) by lia.
Qed.

End Loops.

(** A loop that stores [f i] in element [i] at turn [i] tabulates [f]. *)
Lemma fill_loop {A : Type} (f : Z -> A) body n (v : list A) :
  0 <= n -> Z.of_nat (length v) = n ->
  (forall i w, 0 <= i < n -> Z.of_nat (length w) = n ->
     exists w', body i w = Some w' /\ Z.of_nat (length w') = n /\
       vget w' i = Some (f i) /\
       forall j, 0 <= j -> j <> i -> vget w' j = vget w j) ->
  for_upto n body v = Some (f <$> seqZ 0 n).
Proof.
  intros Hn Hlen Hbody.
  destruct (for_upto_invariant
    (fun i w => Z.of_nat (length w) = n /\
       forall k, 0 <= k < i -> vget w k = Some (f k))
    body n v) as (v' & -> & Hl' & Hv'); [done| | |].
  - split; [done|]. intros k Hk. lia.
  - intros i w Hi [Hlw Hw].
    destruct (Hbody i w) as (w' & -> & Hlw' & Hi' & Hne); [done..|].
    exists w'. split; [done|]. split; [done|].
    intros k Hk. destruct (decide (k = i)) as [->|]; [done|].
    rewrite Hne by lia. apply Hw. lia.
  - f_equal. by apply vector_eq_tabulate.
Qed.

(** A loop that replaces element [i] at turn [i], reading only that
    element, maps the vector. *)
Lemma map_loop {A : Type} (g f : Z -> A) body n :
  0 <= n ->
  (forall i w, 0 <= i < n -> Z.of_nat (length w) = n ->
     vget w i = Some (g i) ->
     exists w', body i w = Some w' /\ Z.of_nat (length w') = n /\
       vget w' i = Some (f i) /\
       forall j, 0 <= j -> j <> i -> vget w' j = vget w j) ->
  for_upto n body (g <$> seqZ 0 n) = Some (f <$> seqZ 0 n).
Proof.
  intros Hn Hbody.
  destruct (for_upto_invariant
    (fun i w => Z.of_nat (length w) = n /\
       forall k, 0 <= k < n ->
         vget w k = Some (if decide (k < i) then f k else g k))
    body n (g <$> seqZ 0 n)) as (v' & -> & Hl' & Hv'); [done| | |].
  - split; [by apply length_tabulate|]. intros k Hk.
    rewrite vget_tabulate by done. by rewrite decide_False by lia.
  - intros i w Hi [Hlw Hw].
    destruct (Hbody i w) as (w' & -> & Hlw' & Hi' & Hne); [done..| |].
    { rewrite Hw by done. by rewrite decide_False by lia. }
    exists w'. split; [done|]. split; [done|].
    intros k Hk. destruct (decide (k = i)) as [->|].
    + rewrite Hi'. by rewrite decide_True by lia.
    + rewrite Hne, Hw by lia. repeat case_decide; done || lia.
  - f_equal. apply vector_eq_tabulate; [done|].
    intros k Hk. rewrite Hv' by done. by rewrite decide_True by lia.
Qed.

Lemma replicate_tabulate {A : Type} (x : A) n :
  0 <= n -> replicate (Z.to_nat n) x = (fun _ => x) <$> seqZ 0 n.
Proof.
  intros Hn. apply vector_eq_tabulate.
  - rewrite length_replicate. lia.
  - intros i Hi. rewrite vget_lookup by lia. apply lookup_replicate_2. lia.
Qed.

Section ComplexArrays.

Implicit Types (a : list fftwf_complex) (i j : Z) (x : float).

Lemma cset_re_pointwise a i x :
  0 <= i < Z.of_nat (length a) ->
  exists a', cset_re a i x = Some a' /\ length a' = length a /\
    forall j, 0 <= j ->
      vget a' j = (fun z => if decide (j = i) then set_re z x else z) <$> vget a j.
Proof.
  intros Hi. destruct (vget_is_Some a i Hi) as [z Hz].
  eexists. unfold cset_re. rewrite Hz. simpl. rewrite vset_is_Some by done.
  split; [done|]. split; [apply length_insert|].
  intros j Hj. destruct (decide (j = i)) as [->|Hne].
  - rewrite vget_insert_eq, Hz by done. done.
  - rewrite vget_insert_ne by lia. by destruct (vget a j).
Qed.

Lemma cset_im_pointwise a i x :
  0 <= i < Z.of_nat (length a) ->
  exists a', cset_im a i x = Some a' /\ length a' = length a /\
    forall j, 0 <= j ->
      vget a' j = (fun z => if decide (j = i) then set_im z x else z) <$> vget a j.
Proof.
  intros Hi. destruct (vget_is_Some a i Hi) as [z Hz].
  eexists. unfold cset_im. rewrite Hz. simpl. rewrite vset_is_Some by done.
  split; [done|]. split; [apply length_insert|].
  intros j Hj. destruct (decide (j = i)) as [->|Hne].
  - rewrite vget_insert_eq, Hz by done. done.
  - rewrite vget_insert_ne by lia. by destruct (vget a j).
Qed.

End ComplexArrays.

Lemma to_float_d1_0 : Float64.to_float d1_0 = Float32.one.
Proof. reflexivity. Qed.

Lemma to_float_d0_0 : Float64.to_float d0_0 = Float32.zero.
Proof. reflexivity. Qed.

Section SpecLoop.

Variables (L maxbin : Z).
Hypothesis HL : power_of_two L.

Lemma mirror_index n :
  0 <= n <= L / 2 ->
  U32.and (U32.sub L n) (U32.sub L 1) = (L - n) mod L /\
  0 <= (L - n) mod L < L.
Proof.
  intros Hn. pose proof (power_of_two_bounds _ HL).
  unfold U32.sub at 1. rewrite and_mask by done.
  split; [done|]. apply Z.mod_pos_bound. lia.
Qed.

(** One turn of the loop sets the bins [n] and [(L - n) mod L] and no
    other. *)
Lemma write_spec_bin_pointwise n a :
  0 <= n <= L / 2 -> Z.of_nat (length a) = L ->
  exists a', write_spec_bin L maxbin n a = Some a' /\
    Z.of_nat (length a') = L /\
    forall j, 0 <= j < L ->
      vget a' j =
      if decide (j = n \/ j = (L - n) mod L)
      then Some (Reference.boxcar maxbin n) else vget a j.
Proof.
  intros Hn Hlen. pose proof (power_of_two_bounds _ HL) as HLb.
  destruct (mirror_index n Hn) as [Hm Hmb].
  assert (n < L) by (pose proof (Z.div_lt L 2); lia).
  unfold write_spec_bin. rewrite Hm.
  change (Float64.to_float d0_0) with Float32.zero.
  set (m := (L - n) mod L) in *.
  set (v := Float64.to_float (if decide (n < maxbin) then d1_0 else d0_0)).
  assert (Reference.boxcar maxbin n = (v, Float32.zero)) as Hbox.
  { unfold Reference.boxcar, v. by case_decide. }
  destruct (cset_re_pointwise a m v) as (a1 & -> & Hl1 & H1); [lia|].
  destruct (cset_re_pointwise a1 n v) as (a2 & E2 & Hl2 & H2); [lia|].
  destruct (cset_im_pointwise a2 m Float32.zero) as (a3 & E3 & Hl3 & H3); [lia|].
  destruct (cset_im_pointwise a3 n Float32.zero) as (a4 & E4 & Hl4 & H4); [lia|].
  exists a4. simpl. rewrite E2. simpl. rewrite E3. simpl.
  split; [done|]. split; [lia|].
  intros j Hj. rewrite H4, H3, H2, H1 by lia.
  destruct (vget_is_Some a j) as [[re im] ->]; [lia|].
  rewrite Hbox. simpl.
  repeat case_decide; simpl; first [done | exfalso; tauto].
Qed.

Lemma spec_loop a :
  Z.of_nat (length a) = L ->
  for_upto (U32.add (L / 2) 1) (write_spec_bin L maxbin) a =
  Some (mirrored_boxcar L maxbin <$> seqZ 0 L).
Proof.
  intros Hlen. pose proof (power_of_two_bounds _ HL) as HLb.
  pose proof (power_of_two_half _ HL) as Hhalf.
  rewrite modulus_eq in HLb.
  assert (0 <= L / 2) by (apply Z.div_pos; lia).
  assert (L / 2 < L) by (apply Z.div_lt; lia).
  unfold U32.add. rewrite u32_small by (unfold U32.in_range; rewrite modulus_eq; lia).
  destruct (for_upto_invariant
    (fun i a => Z.of_nat (length a) = L /\
       forall k, 0 <= k < L -> k < i \/ L - i < k ->
         vget a k = Some (mirrored_boxcar L maxbin k))
    (write_spec_bin L maxbin) (L / 2 + 1) a) as (a' & -> & Hl' & Ha'); [lia| | |].
  - split; [done|]. intros k Hk [?|?]; lia.
  - intros i b Hi [Hlb Hb].
    destruct (write_spec_bin_pointwise i b) as (b' & -> & Hlb' & Hb'); [lia|done|].
    exists b'. split; [done|]. split; [done|].
    intros k Hk Hwritten. rewrite Hb' by done.
    assert ((L - i) mod L = if decide (i = 0) then 0 else L - i) as ->.
    { case_decide as Hi0.
      - subst i. rewrite Z.sub_0_r. apply Z.mod_same. lia.
      - apply Z.mod_small. lia. }
    unfold mirrored_boxcar.
    case_decide as Hcase.
    + f_equal. f_equal. repeat case_decide; lia.
    + apply Hb; [done|]. repeat case_decide; lia.
  - f_equal. apply vector_eq_tabulate; [done|].
    intros k Hk. apply Ha'; [done|]. lia.
Qed.

End SpecLoop.

(** The closed form of the spectrum is the spectrum of the specification. *)
Lemma mirrored_boxcar_DesignSpectrum n maxbin :
  power_of_two n ->
  Reference.DesignSpectrum n maxbin (mirrored_boxcar n maxbin <$> seqZ 0 n).
Proof.
  intros Hpow. pose proof (power_of_two_bounds _ Hpow) as Hb.
  pose proof (power_of_two_half _ Hpow) as Hhalf.
  split; [apply length_tabulate; lia|].
  intros i Hi.
  assert (0 <= n / 2 < n) by (split; [apply Z.div_pos|apply Z.div_lt]; lia).
  assert (0 <= (n - i) mod n < n) by (apply Z.mod_pos_bound; lia).
  rewrite !vget_tabulate by lia. unfold mirrored_boxcar.
  split; [by rewrite decide_True by lia|].
  destruct (decide (i = 0)) as [->|].
  - rewrite Z.sub_0_r, Z.mod_same by lia. by rewrite decide_True by lia.
  - rewrite Z.mod_small by lia. do 2 f_equal. case_decide; lia.
Qed.

(** Without wrap-around the cutoff bin is the one of the specification. *)
Lemma wrapped_maxbin_exact n hz rate :
  0 <= n -> 0 <= hz -> 0 < rate -> n * hz < U32.modulus ->
  wrapped_maxbin n hz rate = Reference.maxbin n hz rate.
Proof.
  intros. unfold wrapped_maxbin, Reference.maxbin, U32.mul.
  rewrite u32_small by (unfold U32.in_range; lia).
  apply Z.div_div; lia.
Qed.

(** The product of a divisor and the quotient gives the dividend back exactly
    when the division is exact; in [unsigned int] nothing wraps. *)
Lemma mul_div_exact x d :
  U32.in_range x -> 0 < d ->
  (U32.mul (x / d) d = x <-> x mod d = 0) /\
  (U32.mul d (x / d) = x <-> x mod d = 0).
Proof.
  intros [Hx0 Hx] Hd. rewrite modulus_eq in Hx.
  pose proof (Z.div_mod x d) as Hdm. pose proof (Z.mod_pos_bound x d Hd).
  assert (0 <= x / d) by (apply Z.div_pos; lia).
  assert (0 <= d * (x / d) <= x) by nia.
  unfold U32.mul. rewrite (Z.mul_comm (x / d) d).
  rewrite u32_small by (unfold U32.in_range; rewrite modulus_eq; lia).
  split; lia.
Qed.

(** The derived rates multiply to the input rate exactly when the member
    that was supplied divides it. *)
Lemma derived_product st :
  U32.in_range (inputSampleRate st) -> 0 < supplied st ->
  let st1 := with_derived_rates st in
  (U32.mul (_outputSampleRate st1) (_decimation st1) = inputSampleRate st1 <->
   inputSampleRate st mod supplied st = 0) /\
  (_outputSampleRate st1 * _decimation st1 = inputSampleRate st <->
   inputSampleRate st mod supplied st = 0).
Proof.
  intros Hrate. unfold supplied, with_derived_rates.
  pose proof (Z.div_mod (inputSampleRate st) (_reqOutputRate st)).
  pose proof (Z.div_mod (inputSampleRate st) (_decimation st)).
  case_decide; simpl; intros Hpos.
  - split; [by apply mul_div_exact|]. lia.
  - split; [by apply mul_div_exact|]. lia.
Qed.

(** Counting with a counter that is reset when it reaches [d]. *)
Lemma counter_reset d n :
  0 < d -> 0 <= n ->
  (d + n) mod d = n mod d /\ (d + n) / d = 1 + n / d.
Proof.
  intros Hd Hn. replace (d + n) with (n + 1 * d) by lia.
  rewrite Z_mod_plus_full, Z_div_plus_full by lia. lia.
Qed.

(** ** The design *)

Section DesignProperties.

Variable cosf : float -> float.
Variable fresh : Z -> Z -> fftwf_complex.
Variable fftwf_dft_backward : Z -> list fftwf_complex -> Z -> fftwf_complex.

Local Abbreviation init := (init cosf fresh fftwf_dft_backward).
Local Abbreviation init_checked := (init_checked cosf fresh fftwf_dft_backward).
Local Abbreviation recalculate := (recalculate fftwf_dft_backward).
Local Abbreviation setPassband := (setPassband fftwf_dft_backward).
Local Abbreviation designed := (designed cosf fftwf_dft_backward).
Local Abbreviation init_outcome := (init_outcome cosf fresh fftwf_dft_backward).

Lemma window_loop n (w : list float) :
  0 <= n -> Z.of_nat (length w) = n ->
  for_upto n (write_window cosf n) w =
  Some (Reference.WindowCoefficients cosf n <$> seqZ 0 n).
Proof.
  intros Hn Hlen. apply fill_loop; [done..|].
  intros i w' Hi Hl. unfold write_window.
  rewrite vset_is_Some by lia. simpl.
  rewrite vget_insert_eq by lia. simpl.
  rewrite vset_is_Some by (rewrite length_insert; lia).
  eexists. split; [done|]. rewrite !length_insert.
  split; [done|]. split.
  - rewrite vget_insert_eq by (rewrite length_insert; lia). done.
  - intros j Hj Hne. by rewrite !vget_insert_ne by lia.
Qed.

Lemma coeff_loop n (a : list fftwf_complex) (co : list float) :
  power_of_two n -> Z.of_nat (length co) = n ->
  for_upto n
    (write_coeff n (fftwf_execute fftwf_dft_backward {| plan_n := n |} a)
       (Reference.WindowCoefficients cosf n <$> seqZ 0 n)) co =
  Some (Reference.TapCoefficients cosf fftwf_dft_backward n a <$> seqZ 0 n).
Proof.
  intros Hpow Hlen. pose proof (power_of_two_bounds _ Hpow) as Hb.
  apply fill_loop; [lia|done|].
  intros i w Hi Hl. unfold write_coeff, U32.add.
  rewrite and_mask by done.
  assert (0 <= (i + n / 2) mod n < n) by (apply Z.mod_pos_bound; lia).
  unfold fftwf_execute. simpl.
  rewrite !vget_tabulate by lia. simpl.
  rewrite vset_is_Some by lia.
  eexists. split; [done|]. rewrite length_insert.
  split; [done|]. split.
  - by rewrite vget_insert_eq by lia.
  - intros j Hj Hne. by rewrite vget_insert_ne by lia.
Qed.

(** [recalculate] succeeds on allocated arrays and leaves the closed
    form. *)
Lemma recalculate_designed st a :
  power_of_two (_firLength st) ->
  inputSampleRate st <> 0 ->
  spec st = Some a -> Z.of_nat (length a) = _firLength st ->
  p st = Some {| plan_n := _firLength st |} ->
  is_Some (impulse st) ->
  window st =
    Reference.WindowCoefficients cosf (_firLength st) <$> seqZ 0 (_firLength st) ->
  recalculate st =
  Some (designed st).
Proof.
  intros Hpow Hrate Hspec Hlen Hp [imp Himp] Hwin.
  pose proof (power_of_two_bounds _ Hpow) as Hb.
  unfold recalculate, cutoff_bin, U32.div.
  rewrite decide_False by done. simpl.
  rewrite Hspec. simpl.
  rewrite (spec_loop _ _ Hpow) by done. simpl.
  rewrite Hp, Himp. simpl. rewrite Hwin.
  rewrite coeff_loop; [|done|by apply length_resize; lia]. simpl.
  reflexivity.
Qed.

Lemma recalculate_wf_design st :
  wf_design cosf st -> recalculate st = Some (designed st).
Proof.
  intros [Hpow Hrate (a & Ha & Hlen) Himp Hp Hwin].
  apply recalculate_designed with a; try done. lia.
Qed.

Lemma wf_design_designed st : wf_design cosf st -> wf_design cosf (designed st).
Proof.
  intros [Hpow Hrate (a & Ha & Hlen) Himp Hp Hwin].
  pose proof (power_of_two_bounds _ Hpow).
  split; simpl; try done.
  eexists. split; [done|]. apply length_tabulate. lia.
Qed.

Lemma wf_design_set_passband hz st :
  wf_design cosf st -> wf_design cosf (set_passband hz st).
Proof. intros []. by split. Qed.

Lemma wf_stream_designed st : wf_stream st -> wf_stream (designed st).
Proof.
  intros [Hpow ? ? ? ? ? ? ?]. pose proof (power_of_two_bounds _ Hpow).
  split; simpl; try done. apply length_tabulate. lia.
Qed.

Lemma wf_stream_set_passband hz st : wf_stream st -> wf_stream (set_passband hz st).
Proof. intros []. by split. Qed.

Lemma init_checked_fails st :
  U32.mul (_outputSampleRate st) (_decimation st) <> inputSampleRate st ->
  init_checked st =
  Some (InitFailed NotIntegerMultiple, set_outputChannels (inputChannels st) st).
Proof.
  intros Hne. unfold init_checked. simpl. by rewrite decide_True.
Qed.

Lemma init_checked_succeeds st :
  power_of_two (_firLength st) ->
  0 < inputSampleRate st < U32.modulus ->
  U32.mul (_outputSampleRate st) (_decimation st) = inputSampleRate st ->
  exists st', init_checked st = Some (InitOk, st') /\
    wf_design cosf st' /\ started_from st st'.
Proof.
  destruct st as [rate ch run orate och n sp im pl win co hist pb hp dc dec req].
  simpl. intros Hpow Hrate Heq.
  pose proof (power_of_two_bounds _ Hpow) as Hb.
  unfold init_checked. simpl. rewrite decide_False by (by intros []).
  rewrite window_loop by (try apply length_resize; lia).
  rewrite bind_Some.
  match goal with
  | |- context [recalculate ?pre] => assert (wf_design cosf pre) as Hwf
  end.
  { split; simpl; try done.
    eexists. split; [done|]. apply length_tabulate. lia. }
  rewrite (recalculate_wf_design _ Hwf), bind_Some.
  eexists. split; [reflexivity|]. split.
  - exact (wf_design_designed _ Hwf).
  - split; simpl; try done. apply length_tabulate. lia.
Qed.

(** The streaming side after a successful [init]. *)
Lemma started_from_wf_stream st st' :
  started_from st st' ->
  power_of_two (_firLength st) ->
  0 < inputChannels st < U32.modulus ->
  0 < _decimation st < U32.modulus ->
  wf_stream st'.
Proof.
  intros [? ? ? ? ? Hlen ? ? ? ? ? ? Hfir] Hpow Hch Hdec.
  pose proof (power_of_two_bounds _ Hpow) as Hb.
  split; try congruence; try lia.
  - rewrite Hfir, length_fmap. rewrite length_resize; lia.
  - rewrite Hfir, Hlen.
    apply Forall_fmap, Forall_true. intros h. simpl. apply length_resize. lia.
Qed.

(** [init] continues with the integrality test on the derived rates as
    soon as one of the two members is set. *)
Lemma init_derived st :
  0 < supplied st ->
  init st = init_checked (with_derived_rates st).
Proof.
  unfold init, supplied, with_derived_rates, U32.div.
  case_decide as Hreq; intros Hpos.
  - simpl. rewrite decide_False by lia. by rewrite bind_Some.
  - rewrite decide_True by done. rewrite decide_False by lia.
    by rewrite bind_Some.
Qed.

Lemma init_cases st :
  wf_config st -> 0 < inputSampleRate st -> init_outcome st.
Proof.
  intros [Hpow Hrate Hch Hpass [Hdec0 Hdec] [Hreq0 Hreq]] Hpos.
  destruct (decide (0 < supplied st)) as [Hs|Hs].
  - destruct (derived_product st Hrate Hs) as [Hiff _].
    assert (inputSampleRate (with_derived_rates st) = inputSampleRate st) as Hin.
    { unfold with_derived_rates. by case_decide. }
    assert (_firLength (with_derived_rates st) = _firLength st) as Hlen.
    { unfold with_derived_rates. by case_decide. }
    destruct (decide (inputSampleRate st mod supplied st = 0)) as [Hmod|Hmod].
    + destruct (init_checked_succeeds
                  (with_derived_rates st)) as (st' & Hinit & Hwf & Hfrom).
      * by rewrite Hlen.
      * rewrite Hin. destruct Hrate. lia.
      * by apply Hiff.
      * apply outcome_started with st'; try done. by rewrite init_derived.
    + apply outcome_inexact; try done.
      rewrite init_derived by done.
      assert (inputChannels st = inputChannels (with_derived_rates st)) as ->.
      { unfold with_derived_rates. by case_decide. }
      apply init_checked_fails. rewrite Hiff. done.
  - unfold supplied in Hs.
    destruct (decide (0 < _reqOutputRate st)) as [?|Hr]; [lia|].
    apply outcome_unset; [lia..|].
    unfold init. rewrite decide_False by done. by rewrite decide_False by done.
Qed.

(** [recalculate] writes [spec], [impulse] and [coeff] only. *)
Lemma recalculate_frame st st' :
  recalculate st = Some st' ->
  st' = set_coeff (coeff st') (set_impulse (impulse st') (set_spec (spec st') st)).
Proof.
  unfold recalculate. intros Hrec.
  destruct (cutoff_bin st); [rewrite bind_Some in Hrec|done].
  destruct (spec st); [rewrite bind_Some in Hrec|done].
  destruct (for_upto _ _ _); [rewrite bind_Some in Hrec|done].
  destruct (p st); [rewrite bind_Some in Hrec|done].
  destruct (impulse st); [rewrite bind_Some in Hrec|done].
  destruct (for_upto _ _ _); [rewrite bind_Some in Hrec|done].
  by injection Hrec as <-.
Qed.

(** A [true] from [init] has passed the integrality test, and the rates
    are those of the state at the test. *)
Lemma init_checked_Ok st st' :
  init_checked st = Some (InitOk, st') ->
  U32.mul (_outputSampleRate st) (_decimation st) = inputSampleRate st /\
  inputSampleRate st' = inputSampleRate st /\
  _outputSampleRate st' = _outputSampleRate st /\
  _decimation st' = _decimation st.
Proof.
  unfold init_checked. cbv zeta.
  case_decide as Hne; [done|]. intros Hinit.
  split.
  { simpl in Hne.
    by destruct (decide (U32.mul (_outputSampleRate st) (_decimation st)
                         = inputSampleRate st)). }
  destruct (for_upto _ _ _); [rewrite bind_Some in Hinit|done].
  match type of Hinit with
  | recalculate ?pre ≫= _ = _ =>
      destruct (recalculate pre) as [st1|] eqn:Hrec;
      [rewrite bind_Some in Hinit|done]
  end.
  injection Hinit as ->. apply recalculate_frame in Hrec. rewrite Hrec. done.
Qed.

(** X15.  On a started filter (the arrays allocated and the
    window computed by [init]), [recalculate] returns, and it leaves in
    [spec] the mirrored boxcar spectrum of the specification and in
    [coeff], at every index [n], the real part of the backward transform of
    that spectrum read at bin [(n + tapCount/2) mod tapCount] times
    [WindowCoefficients[n]] -- for the cutoff bin
    [((tapCount * passbandHz) mod 2^32) / inputSampleRate / 2] of 32-bit
    unsigned arithmetic.  That bin is the
    [floor (tapCount * passbandHz / inputSampleRate / 2)] of the
    specification whenever [tapCount * passbandHz] is below [2^32]. *)
Theorem recalculate_matches_reference st :
  wf_design cosf st ->
  let n := _firLength st in
  let rate := inputSampleRate st in
  let maxbin := wrapped_maxbin n (_passband st) rate in
  exists st' S,
    recalculate st = Some st' /\
    spec st' = Some S /\
    Reference.DesignSpectrum n maxbin S /\
    window st' = Reference.WindowCoefficients cosf n <$> seqZ 0 n /\
    coeff st' =
      Reference.TapCoefficients cosf fftwf_dft_backward n S <$> seqZ 0 n /\
    (0 <= _passband st -> n * _passband st < U32.modulus ->
     maxbin = Reference.maxbin n (_passband st) rate).
Proof.
  intros Hwf n rate maxbin.
  pose proof (wfd_firLength _ _ Hwf) as Hpow.
  pose proof (power_of_two_bounds _ Hpow) as Hb.
  pose proof (wfd_inputSampleRate _ _ Hwf) as Hrate.
  exists (designed st), (mirrored_boxcar n maxbin <$> seqZ 0 n).
  split; [by apply recalculate_wf_design|].
  split; [done|].
  split; [by apply mirrored_boxcar_DesignSpectrum|].
  split; [apply (wfd_window _ _ Hwf)|].
  split; [done|].
  intros Hpass Hsmall. apply wrapped_maxbin_exact; unfold n, rate; lia.
Qed.

(** [init] never logs the first message once it has reached the
    integrality test. *)
Lemma init_checked_not_unset st r st' :
  init_checked st = Some (r, st') -> r <> InitFailed MustSpecifyRate.
Proof.
  unfold init_checked. cbv zeta. case_decide; [by intros [= <- _]|].
  intros Hinit.
  destruct (for_upto _ _ _); [rewrite bind_Some in Hinit|done].
  match type of Hinit with
  | ?m ≫= _ = _ => destruct m; [rewrite bind_Some in Hinit|done]
  end.
  by injection Hinit as <- _.
Qed.

(** C4 (amended).  On a well-formed configuration with a positive input
    rate [init] returns, and it returns [false] exactly when neither member
    is set or the derived output rate times the derived decimation is not
    the input rate; the latter means that the member that was supplied (the
    requested output rate, else the decimation factor) does not divide the
    input rate. *)
Theorem init_fails_iff st :
  wf_config st -> 0 < inputSampleRate st ->
  let st1 := with_derived_rates st in
  exists r st',
    init st = Some (r, st') /\
    (init_returns r = false <->
       (_reqOutputRate st = 0 /\ _decimation st = 0) \/
       _outputSampleRate st1 * _decimation st1 <> inputSampleRate st) /\
    (r = InitFailed MustSpecifyRate <->
       _reqOutputRate st = 0 /\ _decimation st = 0) /\
    (0 < supplied st ->
       (_outputSampleRate st1 * _decimation st1 <> inputSampleRate st <->
        inputSampleRate st mod supplied st <> 0)).
Proof.
  intros Hwf Hpos st1.
  assert (0 < supplied st ->
          ~ (_reqOutputRate st = 0 /\ _decimation st = 0)) as Hset.
  { unfold supplied. intros Hs [Hr Hd]. case_decide; lia. }
  assert (0 < supplied st ->
          (_outputSampleRate st1 * _decimation st1 <> inputSampleRate st <->
           inputSampleRate st mod supplied st <> 0)) as Hprod.
  { intros Hs.
    destruct (derived_product st (wfc_inputSampleRate _ Hwf) Hs) as [_ Hiff].
    unfold st1. by rewrite Hiff. }
  destruct (init_cases st Hwf Hpos)
    as [Hr Hd Hinit|Hs Hmod Hinit|st' Hs Hmod Hinit _ _];
    eexists _, _; (split; [exact Hinit|]);
    (split; [|split; [|exact Hprod]]); simpl.
  - split; [by left|done].
  - split; [done|]. by intros _.
  - specialize (Hset Hs). apply Hprod in Hmod; [|done].
    split; [by right|done].
  - specialize (Hset Hs). split; [done|]. by intros ?.
  - specialize (Hset Hs). split; [done|].
    intros [?|Hne]; [done|]. by apply Hprod in Hne.
  - specialize (Hset Hs). split; [done|]. by intros ?.
Qed.

(** C5.  After a [true] from [init] the output rate times the decimation
    factor is the input rate, exactly; the member that was supplied is
    kept and the other one is the quotient. *)
Theorem init_rate_identity st st' :
  U32.in_range (inputSampleRate st) ->
  init st = Some (InitOk, st') ->
  _outputSampleRate st' * _decimation st' = inputSampleRate st' /\
  inputSampleRate st' = inputSampleRate st /\
  (0 < _reqOutputRate st ->
     _outputSampleRate st' = _reqOutputRate st /\
     _decimation st' = inputSampleRate st / _reqOutputRate st) /\
  (_reqOutputRate st <= 0 ->
     _decimation st' = _decimation st /\
     _outputSampleRate st' = inputSampleRate st / _decimation st).
Proof.
  intros Hrate Hinit.
  destruct (decide (0 < supplied st)) as [Hs|Hs].
  - rewrite init_derived in Hinit by done.
    apply init_checked_Ok in Hinit as (Hmul & Hin & Hout & Hdec).
    destruct (derived_product st Hrate Hs) as [Hiff1 Hiff2].
    apply Hiff1, Hiff2 in Hmul.
    rewrite Hin, Hout, Hdec. clear Hiff1 Hiff2.
    unfold with_derived_rates, supplied in *.
    case_decide; simpl in *; repeat split; try done; lia.
  - unfold init, supplied in *.
    destruct (decide (0 < _reqOutputRate st)); [lia|].
    by rewrite decide_False in Hinit by done.
Qed.

(** C6.  On a started filter flagged as running, [setPassband] returns and
    is the redesign for the new passband: the rings of the channels,
    [headpos] and [decimationCount] are untouched, and nothing but
    [_passband], [spec], [impulse] and [coeff] is written. *)
Theorem setPassband_running st hz :
  wf_design cosf st -> isRunning st = true ->
  exists st',
    setPassband hz st = Some st' /\
    recalculate (set_passband hz st) = Some st' /\
    _passband st' = hz /\
    fir st' = fir st /\
    headpos st' = headpos st /\
    decimationCount st' = decimationCount st /\
    st' = set_coeff (coeff st')
            (set_impulse (impulse st')
               (set_spec (spec st') (set_passband hz st))).
Proof.
  intros Hwf Hrun.
  pose proof (recalculate_wf_design _
                (wf_design_set_passband hz st Hwf)) as Hrec.
  exists (designed (set_passband hz st)).
  unfold setPassband. cbv zeta.
  change (isRunning (set_passband hz st)) with (isRunning st).
  rewrite Hrun. repeat split; done.
Qed.

(** C8.  On a started filter [recalculate] run twice in a row returns both
    times, with the same [coeff] (the state it leaves is a fixed point),
    and that [coeff] is a function of the tap count, the passband and the
    input rate alone. *)
Theorem recalculate_twice st :
  wf_design cosf st ->
  let n := _firLength st in
  exists st1 st2,
    recalculate st = Some st1 /\
    recalculate st1 = Some st2 /\
    coeff st2 = coeff st1 /\
    st2 = st1 /\
    coeff st1 =
      Reference.TapCoefficients cosf fftwf_dft_backward n
        (mirrored_boxcar n
           (wrapped_maxbin n (_passband st) (inputSampleRate st))
           <$> seqZ 0 n)
        <$> seqZ 0 n.
Proof.
  intros Hwf n.
  pose proof (recalculate_wf_design _ Hwf) as H1.
  pose proof (recalculate_wf_design _
                (wf_design_designed _ Hwf)) as H2.
  exists (designed st), (designed st).
  split; [done|]. split; [exact H2|]. done.
Qed.

Section Constructor.

Variable DEFAULT_SAMPLE_RATE : Z.

Lemma wf_config_ctor blk :
  default_rate DEFAULT_SAMPLE_RATE ->
  U32.in_range (dsp_inputSampleRate blk) ->
  U32.in_range (dsp_inputChannels blk) ->
  wf_config (LowPass_ctor DEFAULT_SAMPLE_RATE blk).
Proof.
  intros [HD0 HD] Hrate Hch. rewrite modulus_eq in HD.
  split; simpl; try done; unfold U32.in_range; rewrite ?modulus_eq; try lia.
  exists 6. split; [lia|reflexivity].
Qed.

(** C9.  A freshly constructed filter has [_reqOutputRate] preset to
    [DEFAULT_SAMPLE_RATE] and no decimation; with a non-zero default
    [init] never logs the message of the branch where neither is set: on a
    positive input rate it returns, with the default as output rate, and it
    returns [false] only from the integrality test, exactly when the
    default does not divide the input rate. *)
Theorem ctor_init_uses_default blk :
  default_rate DEFAULT_SAMPLE_RATE ->
  U32.in_range (dsp_inputSampleRate blk) ->
  U32.in_range (dsp_inputChannels blk) ->
  let st := LowPass_ctor DEFAULT_SAMPLE_RATE blk in
  let rate := dsp_inputSampleRate blk in
  _reqOutputRate st = DEFAULT_SAMPLE_RATE /\
  _decimation st = 0 /\
  (forall st', init st <> Some (InitFailed MustSpecifyRate, st')) /\
  (0 < rate ->
   exists r st',
     init st = Some (r, st') /\
     _outputSampleRate st' = DEFAULT_SAMPLE_RATE /\
     _decimation st' = rate / DEFAULT_SAMPLE_RATE /\
     (r = InitOk <-> rate mod DEFAULT_SAMPLE_RATE = 0) /\
     (r = InitFailed NotIntegerMultiple <->
      rate mod DEFAULT_SAMPLE_RATE <> 0)).
Proof.
  intros HD Hrate Hch st rate.
  pose proof (wf_config_ctor blk HD Hrate Hch) as Hwf. fold st in Hwf.
  destruct HD as [HD0 HD].
  assert (supplied st = DEFAULT_SAMPLE_RATE) as Hsup.
  { unfold supplied. simpl. by rewrite decide_True. }
  assert (with_derived_rates st =
          set_decimation (rate / DEFAULT_SAMPLE_RATE)
            (set_outputSampleRate DEFAULT_SAMPLE_RATE st)) as Hder.
  { unfold with_derived_rates. simpl. by rewrite decide_True. }
  split; [done|]. split; [done|]. split.
  - intros st' Hinit. rewrite init_derived in Hinit by lia.
    by apply init_checked_not_unset in Hinit.
  - intros Hpos.
    destruct (init_cases st Hwf Hpos)
      as [Hr Hd Hinit|Hs Hmod Hinit|st' Hs Hmod Hinit _ Hfrom].
    + simpl in Hr. lia.
    + rewrite Hsup in Hmod. eexists _, _. split; [exact Hinit|].
      rewrite Hder. simpl. repeat split; try done.
    + rewrite Hsup in Hmod. exists InitOk, st'. split; [exact Hinit|].
      destruct Hfrom. rewrite Hder in *. simpl in *.
      repeat split; try done.
Qed.

End Constructor.

End DesignProperties.

(** C7.  While the filter is running [setDecimation] and
    [setOutputSampleRate] leave the whole state as it is; otherwise each
    stores its argument and clears the other member, so that the one called
    last decides. *)
Theorem rate_setters st n hz :
  if isRunning st then
    setDecimation n st = st /\ setOutputSampleRate hz st = st
  else
    (_decimation (setDecimation n st) = n /\
     _reqOutputRate (setDecimation n st) = 0) /\
    (_reqOutputRate (setOutputSampleRate hz st) = hz /\
     _decimation (setOutputSampleRate hz st) = 0) /\
    (_reqOutputRate (setOutputSampleRate hz (setDecimation n st)) = hz /\
     _decimation (setOutputSampleRate hz (setDecimation n st)) = 0) /\
    (_decimation (setDecimation n (setOutputSampleRate hz st)) = n /\
     _reqOutputRate (setDecimation n (setOutputSampleRate hz st)) = 0).
Proof.
  unfold setDecimation, setOutputSampleRate.
  destruct (isRunning st) eqn:Hrun; [done|]. simpl. rewrite Hrun. done.
Qed.

(** ** The streaming convolution *)

Section StoreFrame.

Variables (st : LowPass) (frame : list float).
Hypothesis Hwf : wf_stream st.
Hypothesis Hframe : Z.of_nat (length frame) = inputChannels st.

Lemma ring_length c h :
  vget (fir st) c = Some h -> Z.of_nat (length h) = _firLength st.
Proof.
  intros Hh. pose proof (wfs_fir_length _ Hwf) as Hall.
  rewrite Forall_lookup in Hall. unfold vget in Hh.
  case_decide; [|done]. by eapply Hall.
Qed.

Lemma fir_tabulate :
  fir st = (fun c => default [] (vget (fir st) c)) <$> seqZ 0 (inputChannels st).
Proof.
  apply vector_eq_tabulate; [apply (wfs_fir_channels _ Hwf)|].
  intros c Hc. destruct (vget_is_Some (fir st) c) as [h ->]; [|done].
  rewrite (wfs_fir_channels _ Hwf). done.
Qed.

Lemma store_frame_stored :
  store_frame (inputChannels st) frame st =
  Some (set_fir (stored_rings st frame) st).
Proof.
  pose proof (wfs_inputChannels _ Hwf) as Hch.
  pose proof (wfs_headpos _ Hwf) as Hhp.
  unfold store_frame.
  destruct (for_upto_invariant
    (fun c s => exists F, s = set_fir F st /\
       Z.of_nat (length F) = inputChannels st /\
       forall k, 0 <= k < inputChannels st ->
         vget F k = if decide (k < c) then Some (stored_ring st frame k)
                    else vget (fir st) k)
    (fun c st' =>
       x ← vget frame c; h ← vget (fir st') c;
       h' ← vset h (headpos st') x; f ← vset (fir st') c h';
       Some (set_fir f st'))
    (inputChannels st) st) as (s' & -> & F & -> & HlF & HF); [lia| | |].
  - exists (fir st). split; [by destruct st|].
    split; [apply (wfs_fir_channels _ Hwf)|].
    intros k Hk. by rewrite decide_False by lia.
  - intros c s Hc (F & -> & HlF & HF). simpl.
    destruct (vget_is_Some frame c) as [x Hx]; [lia|].
    destruct (vget_is_Some (fir st) c) as [h Hh];
      [rewrite (wfs_fir_channels _ Hwf); lia|].
    pose proof (ring_length c h Hh) as Hlh.
    rewrite Hx, bind_Some.
    rewrite (HF c) by lia. rewrite decide_False by lia.
    rewrite Hh, bind_Some.
    rewrite vset_is_Some by lia. rewrite bind_Some.
    rewrite vset_is_Some by lia. rewrite bind_Some.
    eexists. split; [done|].
    eexists. split; [done|]. rewrite length_insert. split; [done|].
    intros k Hk. destruct (decide (k = c)) as [->|].
    + rewrite vget_insert_eq by lia. rewrite decide_True by lia.
      unfold stored_ring. by rewrite Hx, Hh.
    + rewrite vget_insert_ne by lia. rewrite HF by done.
      repeat case_decide; done || lia.
  - do 2 f_equal. apply vector_eq_tabulate; [done|].
    intros k Hk. rewrite HF by done. by rewrite decide_True by lia.
Qed.

End StoreFrame.

Lemma convolve_terms_succ taps history tapCount headpos t :
  0 <= t ->
  Reference.convolve_terms taps history tapCount headpos (t + 1) =
  Float32.add (Reference.convolve_terms taps history tapCount headpos t)
    (Float32.mul (default Float32.zero (vget taps t))
       (default Float32.zero (vget history ((headpos - t) mod tapCount)))).
Proof.
  intros Ht. unfold Reference.convolve_terms.
  rewrite seqZ_app by lia. rewrite foldl_app. done.
Qed.

(** ** Segments of the output buffer *)

Section Segments.

Context {A : Type}.
Implicit Types (pre seg post : list A).

(** The element [c] of a segment that lies behind [pre]. *)
Lemma vget_segment pre seg post c :
  0 <= c < Z.of_nat (length seg) ->
  vget (pre ++ seg ++ post) (Z.of_nat (length pre) + c) = vget seg c.
Proof.
  intros Hc. rewrite !vget_lookup by lia.
  replace (Z.to_nat (Z.of_nat (length pre) + c))
    with (length pre + Z.to_nat c)%nat by lia.
  rewrite lookup_app_r by lia.
  replace (length pre + Z.to_nat c - length pre)%nat with (Z.to_nat c) by lia.
  apply lookup_app_l. lia.
Qed.

Lemma vset_segment pre seg post c x :
  0 <= c < Z.of_nat (length seg) ->
  vset (pre ++ seg ++ post) (Z.of_nat (length pre) + c) x =
  Some (pre ++ <[Z.to_nat c := x]> seg ++ post).
Proof.
  intros Hc. unfold vset.
  rewrite decide_True by (rewrite !length_app; lia). f_equal.
  replace (Z.to_nat (Z.of_nat (length pre) + c))
    with (length pre + Z.to_nat c)%nat by lia.
  rewrite insert_app_r. f_equal. apply insert_app_l. lia.
Qed.

(** A buffer with room for [n] elements from [a] on has a segment
    there. *)
Lemma buffer_segment (buf : list A) a n :
  0 <= a -> 0 <= n -> a + n <= Z.of_nat (length buf) ->
  exists pre seg post,
    buf = pre ++ seg ++ post /\
    Z.of_nat (length pre) = a /\ Z.of_nat (length seg) = n.
Proof.
  intros Ha Hn Hroom.
  exists (take (Z.to_nat a) buf),
         (take (Z.to_nat n) (drop (Z.to_nat a) buf)),
         (drop (Z.to_nat n) (drop (Z.to_nat a) buf)).
  rewrite !take_drop. rewrite !length_take, length_drop. split; [done|]. lia.
Qed.

(** A loop that replaces element [i] of the segment at turn [i], reading
    only that element, maps the segment. *)
Lemma map_segment_loop (g f : Z -> A) body n pre post :
  0 <= n ->
  (forall i seg, 0 <= i < n -> Z.of_nat (length seg) = n ->
     vget seg i = Some (g i) ->
     body i (pre ++ seg ++ post) =
     Some (pre ++ <[Z.to_nat i := f i]> seg ++ post)) ->
  for_upto n body (pre ++ (g <$> seqZ 0 n) ++ post) =
  Some (pre ++ (f <$> seqZ 0 n) ++ post).
Proof.
  intros Hn Hbody.
  destruct (for_upto_invariant
    (fun i w => exists seg, w = pre ++ seg ++ post /\
       Z.of_nat (length seg) = n /\
       forall k, 0 <= k < n ->
         vget seg k = Some (if decide (k < i) then f k else g k))
    body n (pre ++ (g <$> seqZ 0 n) ++ post))
    as (w & -> & seg & -> & Hl & Hseg); [done| | |].
  - eexists. split; [done|]. split; [by apply length_tabulate|].
    intros k Hk. rewrite vget_tabulate by done. by rewrite decide_False by lia.
  - intros i w Hi (seg & -> & Hl & Hseg).
    rewrite (Hbody i seg) by (rewrite ?Hseg, ?decide_False by lia; done).
    eexists. split; [done|]. eexists. split; [done|].
    rewrite length_insert. split; [done|].
    intros k Hk. destruct (decide (k = i)) as [->|].
    + rewrite vget_insert_eq by lia. by rewrite decide_True by lia.
    + rewrite vget_insert_ne, Hseg by lia. repeat case_decide; done || lia.
  - do 3 f_equal. apply vector_eq_tabulate; [done|].
    intros k Hk. rewrite Hseg by done. by rewrite decide_True by lia.
Qed.

End Segments.

(** [written] on a segment. *)
Lemma written_segment pre seg post f :
  length f = length seg ->
  written f (Z.of_nat (length pre)) (pre ++ seg ++ post) = pre ++ f ++ post.
Proof.
  intros Hlen. unfold written. rewrite Nat2Z.id.
  rewrite take_app_length. do 2 f_equal.
  rewrite drop_app_add. rewrite Hlen. apply drop_app_length.
Qed.

Lemma written_nil outpos buf : written [] outpos buf = buf.
Proof. unfold written. simpl. rewrite Nat.add_0_r. apply take_drop. Qed.

Lemma length_written f outpos buf :
  0 <= outpos -> outpos + Z.of_nat (length f) <= Z.of_nat (length buf) ->
  length (written f outpos buf) = length buf.
Proof.
  intros H0 Hroom. unfold written.
  rewrite !length_app, length_take, length_drop. lia.
Qed.

(** Writing [g] behind [f] is writing [f ++ g]. *)
Lemma written_app f g outpos buf :
  0 <= outpos ->
  outpos + Z.of_nat (length f) + Z.of_nat (length g)
  <= Z.of_nat (length buf) ->
  written g (outpos + Z.of_nat (length f)) (written f outpos buf) =
  written (f ++ g) outpos buf.
Proof.
  intros H0 Hroom.
  destruct (buffer_segment buf outpos
              (Z.of_nat (length f) + Z.of_nat (length g)))
    as (pre & seg & post & -> & Hpre & Hseg); [lia..|].
  destruct (buffer_segment seg 0 (Z.of_nat (length f)))
    as (nil & segf & segg & -> & Hnil & Hsegf); [lia..|].
  destruct nil; [|simpl in Hnil; lia]. simpl in *.
  rewrite length_app in Hseg.
  rewrite <- Hpre.
  rewrite <- (app_assoc segf segg post).
  rewrite (written_segment pre segf (segg ++ post) f) by lia.
  rewrite (app_assoc segf segg post).
  rewrite (written_segment pre (segf ++ segg) post (f ++ g))
    by (rewrite !length_app; lia).
  replace (Z.of_nat (length pre) + Z.of_nat (length f))
    with (Z.of_nat (length (pre ++ f))) by (rewrite length_app; lia).
  rewrite (app_assoc pre f (segg ++ post)).
  rewrite (written_segment (pre ++ f) segg post g) by lia.
  by rewrite <- !app_assoc.
Qed.

Section AccumulateTaps.

Variable st : LowPass.
Hypothesis Hwf : wf_stream st.

Local Abbreviation ring := (ring st).

Variables pre post : list float.

Local Abbreviation outpos := (Z.of_nat (length pre)).

Lemma clear_frame_segment seg :
  Z.of_nat (length seg) = inputChannels st ->
  clear_frame (inputChannels st) outpos (pre ++ seg ++ post) =
  Some (pre ++ replicate (Z.to_nat (inputChannels st)) (Float64.to_float d0_0)
          ++ post).
Proof.
  intros Hseg. pose proof (wfs_inputChannels _ Hwf) as Hch.
  unfold clear_frame.
  destruct (for_upto_invariant
    (fun c w => exists s, w = pre ++ s ++ post /\
       Z.of_nat (length s) = inputChannels st /\
       forall k, 0 <= k < c -> vget s k = Some (Float64.to_float d0_0))
    (fun c buf => vset buf (outpos + c) (Float64.to_float d0_0))
    (inputChannels st) (pre ++ seg ++ post))
    as (w & -> & s & -> & Hl & Hs); [lia| | |].
  - exists seg. split; [done|]. split; [done|]. intros k Hk. lia.
  - intros c w Hc (s & -> & Hl & Hs).
    rewrite vset_segment by lia.
    eexists. split; [done|]. eexists. split; [done|].
    rewrite length_insert. split; [done|].
    intros k Hk. destruct (decide (k = c)) as [->|].
    + by rewrite vget_insert_eq by lia.
    + rewrite vget_insert_ne by lia. apply Hs. lia.
  - do 3 f_equal. rewrite replicate_tabulate by lia.
    by apply vector_eq_tabulate.
Qed.

Lemma accumulate_taps_convolve :
  accumulate_taps (inputChannels st) st outpos
    (pre ++ replicate (Z.to_nat (inputChannels st)) (Float64.to_float d0_0)
       ++ post) =
  Some (pre ++
        ((fun h => Reference.convolve (coeff st) h (_firLength st) (headpos st))
           <$> fir st) ++ post,
        (headpos st - _firLength st) mod _firLength st).
Proof.
  pose proof (wfs_inputChannels _ Hwf) as Hch.
  pose proof (wfs_headpos _ Hwf) as Hhp.
  pose proof (wfs_firLength _ Hwf) as Hpow.
  pose proof (power_of_two_bounds _ Hpow) as Hb.
  unfold accumulate_taps.
  destruct (for_upto_invariant
    (fun t '(buf, idx) =>
       buf = pre ++
             ((fun c => Reference.convolve_terms (coeff st) (ring c)
                          (_firLength st) (headpos st) t)
                <$> seqZ 0 (inputChannels st)) ++ post /\
       idx = (headpos st - t) mod _firLength st)
    (fun tap '(buf, idx) =>
       weight ← vget (coeff st) tap;
       buf ← for_upto (inputChannels st)
               (fun c buf =>
                  h ← vget (fir st) c; x ← vget h idx;
                  y ← vget buf (outpos + c);
                  vset buf (outpos + c)
                    (Float32.add y (Float32.mul weight x)))
               buf;
       Some (buf, U32.and (U32.sub idx 1) (U32.sub (_firLength st) 1)))
    (_firLength st)
    (pre ++ replicate (Z.to_nat (inputChannels st)) (Float64.to_float d0_0)
       ++ post,
     headpos st)) as ([buf idx] & -> & -> & ->); [lia| | |].
  - split.
    + rewrite replicate_tabulate by lia. done.
    + rewrite Z.sub_0_r. by rewrite Z.mod_small by lia.
  - intros t [buf idx] Ht [-> ->].
    destruct (vget_is_Some (coeff st) t) as [w Hw];
      [rewrite (wfs_coeff _ Hwf); lia|].
    rewrite Hw, bind_Some.
    assert (0 <= (headpos st - t) mod _firLength st < _firLength st) as Hidx
      by (apply Z.mod_pos_bound; lia).
    rewrite (map_segment_loop _
      (fun c => Reference.convolve_terms (coeff st) (ring c)
                  (_firLength st) (headpos st) (t + 1))); [|lia|].
    + rewrite bind_Some. eexists. split; [done|]. split; [done|].
      unfold U32.sub at 1. rewrite and_mask by done.
      rewrite Zminus_mod_idemp_l. f_equal. lia.
    + intros c v Hc Hlv Hvc.
      destruct (vget_is_Some (fir st) c) as [h Hh];
        [rewrite (wfs_fir_channels _ Hwf); lia|].
      pose proof (ring_length st Hwf c h Hh) as Hlh.
      destruct (vget_is_Some h ((headpos st - t) mod _firLength st))
        as [x Hx]; [lia|].
      cbv beta. rewrite Hh, bind_Some. cbv beta. rewrite Hx, bind_Some.
      cbv beta. rewrite vget_segment by lia. rewrite Hvc, bind_Some. cbv beta.
      rewrite vset_segment by lia. do 4 f_equal.
      rewrite convolve_terms_succ by lia.
      unfold ring. rewrite Hw, Hh. simpl. by rewrite Hx.
  - do 3 f_equal.
    rewrite (fir_tabulate st Hwf). rewrite <- list_fmap_compose. done.
Qed.

End AccumulateTaps.

Section ProcessFrame.

Variables (st : LowPass) (frame : list float).
Hypothesis Hwf : wf_stream st.
Hypothesis Hframe : Z.of_nat (length frame) = inputChannels st.

Lemma stored_ring_length c :
  0 <= c < inputChannels st ->
  Z.of_nat (length (stored_ring st frame c)) = _firLength st.
Proof.
  intros Hc. unfold stored_ring. rewrite length_insert.
  destruct (vget_is_Some (fir st) c) as [h Hh];
    [rewrite (wfs_fir_channels _ Hwf); lia|].
  rewrite Hh. simpl. by eapply ring_length.
Qed.

Lemma wf_stream_stored : wf_stream (set_fir (stored_rings st frame) st).
Proof.
  pose proof (wfs_inputChannels _ Hwf) as Hch.
  destruct Hwf. split; simpl; try done.
  - unfold stored_rings. apply length_tabulate. lia.
  - unfold stored_rings. apply Forall_fmap, Forall_forall.
    intros c Hc. simpl. apply stored_ring_length.
    apply list_elem_of_lookup in Hc as [i Hi].
    apply lookup_seqZ in Hi. lia.
Qed.

(** An output frame has one sample per channel. *)
Lemma frame_output_length f :
  frame_output frame st = Some f -> Z.of_nat (length f) = inputChannels st.
Proof.
  pose proof (wfs_inputChannels _ Hwf) as Hch.
  unfold frame_output. case_decide; [|done]. intros [= <-].
  rewrite length_fmap. unfold stored_rings. apply length_tabulate. lia.
Qed.

Lemma frame_output_samples :
  Z.of_nat (length (concat (option_list (frame_output frame st)))) =
  if decide (decimationCount st + 1 = _decimation st) then inputChannels st
  else 0.
Proof.
  destruct (frame_output frame st) as [f|] eqn:Hf; simpl.
  - rewrite app_nil_r, (frame_output_length f Hf).
    unfold frame_output in Hf. by case_decide.
  - unfold frame_output in Hf. by case_decide.
Qed.

(** The body of the loop of [process] in closed form, when the buffer has
    room for the frame it writes. *)
Lemma process_frame_closed outpos buf :
  0 <= outpos ->
  (decimationCount st + 1 = _decimation st ->
   outpos + inputChannels st <= Z.of_nat (length buf)) ->
  process_frame (inputChannels st) frame st outpos buf =
  Some (after_frame frame st,
        outpos +
        Z.of_nat (length (concat (option_list (frame_output frame st)))),
        written (concat (option_list (frame_output frame st))) outpos buf).
Proof.
  intros Hpos Hroom.
  pose proof (wfs_firLength _ Hwf) as Hpow.
  pose proof (wfs_inputChannels _ Hwf) as Hch.
  pose proof (wfs_decimation _ Hwf) as Hdec.
  pose proof (wfs_decimationCount _ Hwf) as Hdc.
  rewrite modulus_eq in Hdec.
  unfold process_frame.
  rewrite store_frame_stored by done. rewrite bind_Some. cbv zeta beta.
  set (st1 := set_fir (stored_rings st frame) st).
  change (decimationCount st1) with (decimationCount st).
  assert (U32.add (decimationCount st) 1 = decimationCount st + 1) as ->.
  { apply u32_small. unfold U32.in_range. rewrite modulus_eq. lia. }
  change (decimationCount (set_decimationCount ?x _)) with x.
  change (_decimation (set_decimationCount ?x st1)) with (_decimation st).
  rewrite frame_output_samples.
  unfold after_frame, frame_output.
  destruct (decide (decimationCount st + 1 = _decimation st)) as [Heq|Hne].
  - specialize (Hroom Heq).
    destruct (buffer_segment buf outpos (inputChannels st))
      as (pre & seg & post & -> & <- & Hseg); [lia..|].
    change (clear_frame (inputChannels st)) with (clear_frame (inputChannels st1)).
    rewrite (clear_frame_segment st1 wf_stream_stored pre post seg Hseg).
    rewrite bind_Some.
    change (accumulate_taps (inputChannels st) (set_decimationCount ?x st1))
      with (accumulate_taps (inputChannels st1) st1).
    rewrite (accumulate_taps_convolve st1 wf_stream_stored pre post).
    rewrite bind_Some. cbv beta iota. rewrite bind_Some. cbv beta iota.
    unfold U32.add. rewrite and_mask by done.
    simpl option_list. simpl concat. rewrite app_nil_r.
    rewrite written_segment; [reflexivity|].
    rewrite length_fmap. unfold stored_rings.
    apply Nat2Z.inj. rewrite length_tabulate by lia. done.
  - rewrite bind_Some. cbv beta iota.
    unfold U32.add. rewrite and_mask by done.
    simpl. by rewrite written_nil, Z.add_0_r.
Qed.

Lemma wf_stream_after_frame : wf_stream (after_frame frame st).
Proof.
  pose proof wf_stream_stored as Hwf1.
  pose proof (wfs_firLength _ Hwf) as Hpow.
  pose proof (power_of_two_bounds _ Hpow) as Hb.
  destruct Hwf1. destruct Hwf. unfold after_frame.
  split; simpl in *; try done.
  - case_decide; lia.
  - apply Z.mod_pos_bound. lia.
Qed.

End ProcessFrame.

Lemma length_concat_frames (outs : list (list float)) channels :
  Forall (fun f => Z.of_nat (length f) = channels) outs ->
  Z.of_nat (length (concat outs)) = Z.of_nat (length outs) * channels.
Proof.
  induction 1 as [|f outs Hf _ IH]; [done|].
  simpl. rewrite length_app. lia.
Qed.


Section ProcessLoop.

Variables (channels tapCount factor : Z) (taps : list float).

Local Abbreviation streams := (streams channels tapCount factor taps).

Lemma streams_after_frame frame st :
  streams st -> Z.of_nat (length frame) = channels ->
  streams (after_frame frame st).
Proof.
  intros (Hwf & Hch & Hn & Hd & Hco) Hframe.
  split; [apply wf_stream_after_frame; congruence|done].
Qed.

(** The state and the output frames after [inframes] frames. *)
Lemma after_frames_counts inframes :
  forall input st,
    streams st ->
    Z.of_nat inframes * channels <= Z.of_nat (length input) ->
    let st' := fst (after_frames inframes channels input st) in
    let outs := snd (after_frames inframes channels input st) in
    streams st' /\
    headpos st' = (headpos st + Z.of_nat inframes) mod tapCount /\
    decimationCount st' =
      (decimationCount st + Z.of_nat inframes) mod factor /\
    Z.of_nat (length outs) =
      frames_due factor (decimationCount st) (Z.of_nat inframes) /\
    Forall (fun f => Z.of_nat (length f) = channels) outs.
Proof.
  unfold frames_due.
  induction inframes as [|k IH]; intros input st Hst Hlen.
  - destruct Hst as (Hwf & Hch & Hn & Hd & Hco).
    pose proof (wfs_headpos _ Hwf). pose proof (wfs_decimationCount _ Hwf).
    simpl. rewrite !Z.add_0_r.
    rewrite !Z.mod_small, Z.div_small by lia. done.
  - pose proof Hst as (Hwf & Hch & Hn & Hd & Hco).
    pose proof (wfs_inputChannels _ Hwf) as Hchb.
    pose proof (wfs_decimation _ Hwf) as Hdec.
    pose proof (wfs_decimationCount _ Hwf) as Hdc.
    assert (Z.of_nat (length (take (Z.to_nat channels) input)) = channels)
      as Hframe by (rewrite length_take; nia).
    cbn [after_frames fst snd]. cbv zeta.
    destruct (IH (drop (Z.to_nat channels) input)
                (after_frame (take (Z.to_nat channels) input) st))
      as (Hst' & Hhp & Hcount & Hnew & Hall).
    { by apply streams_after_frame. }
    { rewrite length_drop. nia. }
    split; [done|].
    pose proof (frame_output_length st (take (Z.to_nat channels) input) Hwf)
      as Hflen.
    unfold after_frame, frame_output in *. simpl in Hhp, Hcount, Hnew.
    rewrite Hn, Hd, Hch in *. clear IH.
    split.
    { rewrite Hhp, Zplus_mod_idemp_l. f_equal. lia. }
    destruct (decide (decimationCount st + 1 = factor)) as [Heq|Hne].
    + destruct (counter_reset factor (Z.of_nat k)) as [Hm Hq]; [lia..|].
      replace (decimationCount st + Z.of_nat (S k))
        with (factor + Z.of_nat k) by lia.
      rewrite Hm, Hq. rewrite Z.add_0_l in Hcount, Hnew.
      split; [done|]. split.
      * simpl. lia.
      * simpl. apply Forall_cons. split; [|done]. by apply Hflen.
    + replace (decimationCount st + Z.of_nat (S k))
        with (decimationCount st + 1 + Z.of_nat k) by lia.
      done.
Qed.

(** The loop of [process] in closed form, when the buffer has room for the
    frames due. *)
Lemma process_loop_closed inframes :
  forall input st outpos buf,
    streams st ->
    Z.of_nat inframes * channels <= Z.of_nat (length input) ->
    0 <= outpos ->
    outpos +
    frames_due factor (decimationCount st) (Z.of_nat inframes) * channels
    <= Z.of_nat (length buf) ->
    process_loop inframes channels input st outpos buf =
    Some (fst (after_frames inframes channels input st),
          outpos +
          Z.of_nat
            (length (concat (snd (after_frames inframes channels input st)))),
          written (concat (snd (after_frames inframes channels input st)))
            outpos buf).
Proof.
  induction inframes as [|k IH]; intros input st outpos buf Hst Hlen Hpos Hroom.
  - simpl. by rewrite written_nil, Z.add_0_r.
  - pose proof Hst as (Hwf & Hch & Hn & Hd & Hco).
    pose proof (wfs_inputChannels _ Hwf) as Hchb.
    pose proof (wfs_decimation _ Hwf) as Hdec.
    pose proof (wfs_decimationCount _ Hwf) as Hdc.
    set (frame := take (Z.to_nat channels) input).
    assert (Z.of_nat (length frame) = channels)
      as Hframe by (unfold frame; rewrite length_take; nia).
    pose proof (frame_output_samples st frame Hwf) as Hsamples.
    rewrite Hch, Hd in Hsamples. rewrite Hch in Hchb. rewrite Hd in Hdec.
    destruct (after_frames_counts k (drop (Z.to_nat channels) input)
                (after_frame frame st))
      as (Hst' & _ & _ & Hnew & Hall).
    { by apply streams_after_frame. }
    { rewrite length_drop. nia. }
    apply length_concat_frames in Hall. rewrite Hnew in Hall.
    unfold frames_due in Hroom, Hall.
    assert (decimationCount (after_frame frame st) =
            if decide (decimationCount st + 1 = factor) then 0
            else decimationCount st + 1) as Hdc'.
    { unfold after_frame. simpl. by rewrite Hd. }
    rewrite Hdc' in Hall.
    assert (Z.of_nat (length (concat (option_list (frame_output frame st))))
            + Z.of_nat
                (length (concat (snd (after_frames k channels
                                        (drop (Z.to_nat channels) input)
                                        (after_frame frame st)))))
            = (decimationCount st + Z.of_nat (S k)) / factor * channels)
      as Htotal.
    { rewrite Hsamples, Hall.
      destruct (decide (decimationCount st + 1 = factor)) as [Heq|Hne].
      - destruct (counter_reset factor (Z.of_nat k)) as [_ Hq]; [lia..|].
        replace (decimationCount st + Z.of_nat (S k))
          with (factor + Z.of_nat k) by lia.
        rewrite Hq, Z.add_0_l. lia.
      - replace (decimationCount st + Z.of_nat (S k))
          with (decimationCount st + 1 + Z.of_nat k) by lia.
        lia. }
    pose proof (process_frame_closed st frame Hwf) as Hbody.
    rewrite Hch in Hbody. specialize (Hbody Hframe outpos buf Hpos).
    cbn [process_loop after_frames fst snd]. fold frame.
    rewrite Hbody; [rewrite bind_Some; cbv beta iota|].
    2:{ intros Heq. rewrite Hd in Heq.
        rewrite decide_True in Hsamples by done. lia. }
    rewrite IH; [| |rewrite length_drop; nia|lia|].
    + rewrite concat_app, length_app, Nat2Z.inj_add.
      rewrite written_app by lia.
      by rewrite Z.add_assoc.
    + by apply streams_after_frame.
    + rewrite length_written by lia.
      unfold frames_due. rewrite Hdc', <- Hall. lia.
Qed.

(** [process] in closed form. *)
Lemma process_closed inBuffer outBuffer st :
  streams st -> has_room st inBuffer outBuffer ->
  process inBuffer outBuffer st =
  Some (true,
        fst (after_frames (Z.to_nat (frames_of channels inBuffer)) channels
               inBuffer st),
        written
          (concat
             (snd (after_frames (Z.to_nat (frames_of channels inBuffer))
                     channels inBuffer st)))
          0 outBuffer).
Proof.
  intros Hst Hroom.
  pose proof Hst as (Hwf & Hch & Hn & Hd & Hco).
  pose proof (wfs_inputChannels _ Hwf) as Hchb. rewrite Hch in Hchb.
  pose proof (u32_in_range (Z.of_nat (length inBuffer))) as [Hu0 _].
  assert (U32.u32 (Z.of_nat (length inBuffer)) <= Z.of_nat (length inBuffer))
    as Hle by (apply Z.mod_le; [lia|done]).
  assert (0 <= frames_of channels inBuffer) as Hpos by (apply Z.div_pos; lia).
  assert (frames_of channels inBuffer * channels
          <= Z.of_nat (length inBuffer)) as Hfit.
  { pose proof (Z.mul_div_le (U32.u32 (Z.of_nat (length inBuffer))) channels).
    unfold frames_of. lia. }
  unfold has_room in Hroom. rewrite Hch, Hd in Hroom.
  unfold process. cbv zeta. rewrite Hch.
  unfold U32.div. rewrite decide_False by lia. rewrite bind_Some.
  fold (frames_of channels inBuffer).
  rewrite process_loop_closed; [done|done| | |]; rewrite ?Z2Nat.id; lia.
Qed.

(** [process] on a block, counted. *)
Lemma process_counts inBuffer outBuffer st :
  streams st -> has_room st inBuffer outBuffer ->
  let inframes := frames_of channels inBuffer in
  exists st' outs,
    process inBuffer outBuffer st =
      Some (true, st', written (concat outs) 0 outBuffer) /\
    after_frames (Z.to_nat inframes) channels inBuffer st = (st', outs) /\
    streams st' /\
    headpos st' = (headpos st + inframes) mod tapCount /\
    decimationCount st' = (decimationCount st + inframes) mod factor /\
    Z.of_nat (length outs) = frames_due factor (decimationCount st) inframes /\
    Forall (fun f => Z.of_nat (length f) = channels) outs.
Proof.
  intros Hst Hroom inframes.
  pose proof Hst as (Hwf & Hch & Hn & Hd & Hco).
  pose proof (wfs_inputChannels _ Hwf) as Hchb. rewrite Hch in Hchb.
  pose proof (u32_in_range (Z.of_nat (length inBuffer))) as [Hu0 _].
  assert (U32.u32 (Z.of_nat (length inBuffer)) <= Z.of_nat (length inBuffer))
    as Hle by (apply Z.mod_le; [lia|done]).
  assert (0 <= inframes) as Hpos by (apply Z.div_pos; lia).
  assert (inframes * channels <= Z.of_nat (length inBuffer)) as Hfit.
  { pose proof (Z.mul_div_le (U32.u32 (Z.of_nat (length inBuffer))) channels).
    unfold inframes, frames_of. lia. }
  pose proof (after_frames_counts (Z.to_nat inframes) inBuffer st Hst) as Hcounts.
  rewrite Z2Nat.id in Hcounts by done. specialize (Hcounts Hfit).
  cbv zeta in Hcounts.
  eexists _, _. split; [by apply process_closed|].
  split; [apply surjective_pairing|]. exact Hcounts.
Qed.


End ProcessLoop.

(** The closed form looks at the first [inframes * channels] samples
    only. *)
Lemma after_frames_prefix inframes channels :
  forall (m : nat) input st,
    0 <= channels ->
    Z.of_nat inframes * channels <= Z.of_nat m ->
    after_frames inframes channels (take m input) st =
    after_frames inframes channels input st.
Proof.
  induction inframes as [|k IH]; intros m input st Hch Hm; [done|].
  cbn [after_frames].
  rewrite take_take, Nat.min_l by nia.
  rewrite skipn_firstn_comm. rewrite IH by nia. done.
Qed.

(** C2.  On a started filter and a whole input frame the body of the loop
    of [process] returns whenever the output buffer has room for a frame
    where one is due, and: each channel's sample is stored in its ring at
    [headpos]; [decimationCount] is incremented, and exactly when it then
    equals [_decimation] one output frame is written at [out] -- for each
    channel the sum over the taps of
    [coeff[tap] * ring[(headpos - tap) mod tapCount]] on the ring just
    written --, [out] moves on by one frame and the counter is reset to 0;
    otherwise the buffer and [out] are as they were; [headpos] moves to
    [(headpos + 1) mod tapCount] in both cases. *)
Theorem process_frame_step st frame outpos buf :
  wf_stream st ->
  Z.of_nat (length frame) = inputChannels st ->
  0 <= outpos ->
  (decimationCount st + 1 = _decimation st ->
   outpos + inputChannels st <= Z.of_nat (length buf)) ->
  exists st' outpos' buf',
    process_frame (inputChannels st) frame st outpos buf =
      Some (st', outpos', buf') /\
    Z.of_nat (length (fir st')) = inputChannels st /\
    (forall c x h,
       vget frame c = Some x -> vget (fir st) c = Some h ->
       vget (fir st') c = Some (<[Z.to_nat (headpos st) := x]> h)) /\
    headpos st' = (headpos st + 1) mod _firLength st /\
    (if decide (decimationCount st + 1 = _decimation st) then
       buf' =
         written
           ((fun h =>
               Reference.convolve (coeff st) h (_firLength st) (headpos st))
              <$> fir st')
           outpos buf /\
       outpos' = outpos + inputChannels st /\
       decimationCount st' = 0
     else
       buf' = buf /\ outpos' = outpos /\
       decimationCount st' = decimationCount st + 1).
Proof.
  intros Hwf Hframe Hpos Hroom. pose proof (wfs_inputChannels _ Hwf) as Hch.
  pose proof (frame_output_samples st frame Hwf) as Hsamples.
  eexists _, _, _.
  split; [by apply process_frame_closed|].
  rewrite Hsamples.
  unfold after_frame, frame_output. simpl.
  split; [unfold stored_rings; apply length_tabulate; lia|].
  split.
  { intros c x h Hx Hh. apply vget_Some_lt in Hx as Hc.
    unfold stored_rings. rewrite vget_tabulate by lia.
    unfold stored_ring. by rewrite Hx, Hh. }
  split; [done|]. case_decide.
  - simpl. by rewrite app_nil_r.
  - simpl. by rewrite written_nil, Z.add_0_r.
Qed.

(** A block of fewer than [2^32] samples is read in full: all its whole
    frames. *)
Lemma frames_of_small channels block :
  Z.of_nat (length block) < U32.modulus ->
  frames_of channels block = Z.of_nat (length block) / channels.
Proof.
  intros Hsize. unfold frames_of.
  by rewrite u32_small by (unfold U32.in_range; lia).
Qed.


(** X17.  On a started filter and an output buffer with room for the
    frames due, [process] returns [true] whatever the size of the block: it
    runs [inframes = floor ((size mod 2^32) / channels)] frames --
    [headpos], the counter and the output frames are those after
    [inframes] frames -- and the samples after the first
    [inframes * channels] are not looked at: the call on that prefix alone
    gives the same state and the same output.  For a block of fewer than
    [2^32] samples [inframes] is [floor (size / channels)]. *)
Theorem process_truncates st inBuffer outBuffer :
  wf_stream st ->
  has_room st inBuffer outBuffer ->
  let channels := inputChannels st in
  let inframes := frames_of channels inBuffer in
  exists st' outs,
    process inBuffer outBuffer st =
      Some (true, st', written (concat outs) 0 outBuffer) /\
    process (take (Z.to_nat (inframes * channels)) inBuffer) outBuffer st =
      Some (true, st', written (concat outs) 0 outBuffer) /\
    headpos st' = (headpos st + inframes) mod _firLength st /\
    decimationCount st' = (decimationCount st + inframes) mod _decimation st /\
    Z.of_nat (length outs) = (decimationCount st + inframes) / _decimation st /\
    Forall (fun f => Z.of_nat (length f) = channels) outs /\
    (Z.of_nat (length inBuffer) < U32.modulus ->
     inframes = Z.of_nat (length inBuffer) / channels).
Proof.
  intros Hwf Hroom channels inframes.
  pose proof (wfs_inputChannels _ Hwf) as Hch. fold channels in Hch.
  assert (streams channels (_firLength st) (_decimation st) (coeff st) st)
    as Hst by done.
  destruct (process_counts channels (_firLength st) (_decimation st) (coeff st)
              inBuffer outBuffer st Hst Hroom)
    as (st' & outs & Hproc & Hrun & _ & Hhp & Hdc & Hlen & Hall).
  fold inframes in Hrun, Hhp, Hdc, Hlen.
  exists st', outs.
  split; [done|]. split; [|by repeat split; try apply frames_of_small].
  pose proof (u32_in_range (Z.of_nat (length inBuffer))) as [Hu0 Hu].
  assert (U32.u32 (Z.of_nat (length inBuffer)) <= Z.of_nat (length inBuffer))
    as Hle by (apply Z.mod_le; [lia|done]).
  assert (0 <= inframes) as Hpos by (apply Z.div_pos; lia).
  assert (inframes * channels <= U32.u32 (Z.of_nat (length inBuffer))) as Hfit.
  { pose proof (Z.mul_div_le (U32.u32 (Z.of_nat (length inBuffer))) channels).
    unfold inframes, frames_of. lia. }
  assert (frames_of channels
            (take (Z.to_nat (inframes * channels)) inBuffer) = inframes)
    as Hsame.
  { unfold frames_of at 1. rewrite length_take, Nat.min_l by lia.
    rewrite Z2Nat.id by lia.
    rewrite (u32_small (inframes * channels)) by (unfold U32.in_range; lia).
    apply Z.div_mul. lia. }
  rewrite (process_closed channels (_firLength st) (_decimation st) (coeff st)
             _ outBuffer st Hst).
  - rewrite Hsame. rewrite after_frames_prefix by lia. by rewrite Hrun.
  - unfold has_room in *. fold channels in Hroom |- *. by rewrite Hsame.
Qed.

(** ** The sample filter *)

Lemma wf_design_started cosf st :
  wf_design cosf st -> wf_design cosf (Sample.started st).
Proof. intros []. by split. Qed.

Lemma wf_stream_started st : wf_stream st -> wf_stream (Sample.started st).
Proof. intros []. by split. Qed.

Lemma sample_configured : wf_config Sample.configured.
Proof.
  split; try (vm_compute; split; [discriminate|reflexivity]).
  exists 6. split; [lia|reflexivity].
Qed.

Lemma sample_initialised :
  Sample.init Sample.configured = Some (InitOk, Sample.initialised) /\
  wf_design Sample.cosf Sample.initialised /\
  wf_stream Sample.initialised.
Proof.
  destruct (init_cases Sample.cosf Sample.fresh Sample.fftwf_dft_backward
              Sample.configured sample_configured)
    as [Hr Hd Hinit|Hs Hmod Hinit|st' Hs Hmod Hinit Hwf Hfrom];
    [reflexivity|..].
  - vm_compute in Hd. discriminate Hd.
  - vm_compute in Hmod. by destruct Hmod.
  - assert (Sample.initialised = st') as ->.
    { unfold Sample.initialised. rewrite Hinit. reflexivity. }
    split; [exact Hinit|]. split; [exact Hwf|].
    apply (started_from_wf_stream _ _ Hfrom).
    + exists 6. split; [lia|reflexivity].
    + vm_compute. split; reflexivity.
    + vm_compute. split; reflexivity.
Qed.

Lemma sample_running_design : wf_design Sample.cosf Sample.running.
Proof. apply wf_design_started, sample_initialised. Qed.

Lemma sample_running_stream : wf_stream Sample.running.
Proof. apply wf_stream_started, sample_initialised. Qed.

Lemma sample_running_members :
  inputChannels Sample.running = 2 /\ _decimation Sample.running = 2 /\
  _firLength Sample.running = 64 /\ inputSampleRate Sample.running = 48000 /\
  decimationCount Sample.running = 0 /\ isRunning Sample.running = true.
Proof. vm_compute. repeat split. Qed.

Example sample_init_ok : fst <$> Sample.init Sample.configured = Some InitOk.
Proof. rewrite (proj1 sample_initialised). reflexivity. Qed.

Example sample_rates :
  _outputSampleRate Sample.running = 24000 /\ _decimation Sample.running = 2.
Proof. vm_compute. split; reflexivity. Qed.

Example sample_cutoff : cutoff_bin Sample.running = Some 4.
Proof. vm_compute. reflexivity. Qed.

Example sample_maxbin_ref : Reference.maxbin 64 6000 48000 = 4.
Proof. reflexivity. Qed.

(** ** The theorems at the sample filter *)

Lemma recalculate_matches_reference_witness :
  wf_design Sample.cosf Sample.running /\
  exists st' S,
    Sample.recalculate Sample.running = Some st' /\
    spec st' = Some S /\
    Reference.DesignSpectrum 64 4 S /\
    coeff st' =
      Reference.TapCoefficients Sample.cosf Sample.fftwf_dft_backward 64 S
        <$> seqZ 0 64.
Proof.
  split; [exact sample_running_design|].
  destruct (recalculate_matches_reference Sample.cosf
              Sample.fftwf_dft_backward Sample.running sample_running_design)
    as (st' & S & Hrec & Hspec & Hsp & _ & Hco & _).
  destruct sample_running_members as (_ & _ & Hn & Hrate & _).
  rewrite Hn, Hrate in Hsp. rewrite Hn in Hco.
  change (wrapped_maxbin 64 (_passband Sample.running) 48000)
    with 4 in Hsp.
  exists st', S. exact (conj Hrec (conj Hspec (conj Hsp Hco))).
Defined.

Lemma init_fails_iff_witness :
  (wf_config Sample.odd_decimation /\
   0 < inputSampleRate Sample.odd_decimation) /\
  exists r st',
    Sample.init Sample.odd_decimation = Some (r, st') /\
    (init_returns r = false <->
       (_reqOutputRate Sample.odd_decimation = 0 /\
        _decimation Sample.odd_decimation = 0) \/
       _outputSampleRate (with_derived_rates Sample.odd_decimation) *
       _decimation (with_derived_rates Sample.odd_decimation) <>
       inputSampleRate Sample.odd_decimation).
Proof.
  assert (wf_config Sample.odd_decimation) as Hwf.
  { split; try (vm_compute; split; [discriminate|reflexivity]).
    exists 6. split; [lia|reflexivity]. }
  assert (0 < inputSampleRate Sample.odd_decimation) as Hpos by reflexivity.
  split; [exact (conj Hwf Hpos)|].
  destruct (init_fails_iff Sample.cosf Sample.fresh Sample.fftwf_dft_backward
              Sample.odd_decimation Hwf Hpos) as (r & st' & Hinit & Hiff & _).
  exists r, st'. exact (conj Hinit Hiff).
Defined.

Lemma init_rate_identity_witness :
  (U32.in_range (inputSampleRate Sample.configured) /\
   Sample.init Sample.configured = Some (InitOk, Sample.initialised)) /\
  _outputSampleRate Sample.initialised * _decimation Sample.initialised =
  inputSampleRate Sample.initialised.
Proof.
  assert (U32.in_range (inputSampleRate Sample.configured)) as Hrate.
  { vm_compute. split; [discriminate|reflexivity]. }
  pose proof (proj1 sample_initialised) as Hinit.
  split; [exact (conj Hrate Hinit)|].
  exact (proj1 (init_rate_identity Sample.cosf Sample.fresh
                  Sample.fftwf_dft_backward Sample.configured
                  Sample.initialised Hrate Hinit)).
Defined.

Lemma setPassband_running_witness :
  (wf_design Sample.cosf Sample.running /\ isRunning Sample.running = true) /\
  exists st',
    Sample.setPassband 8000 Sample.running = Some st' /\
    _passband st' = 8000 /\
    fir st' = fir Sample.running /\
    headpos st' = headpos Sample.running /\
    decimationCount st' = decimationCount Sample.running.
Proof.
  assert (isRunning Sample.running = true) as Hrun by reflexivity.
  split; [split; [exact sample_running_design|exact Hrun]|].
  destruct (setPassband_running Sample.cosf Sample.fftwf_dft_backward
              Sample.running 8000 sample_running_design Hrun)
    as (st' & Hset & _ & Hpass & Hfir & Hhp & Hdc & _).
  exists st'. exact (conj Hset (conj Hpass (conj Hfir (conj Hhp Hdc)))).
Defined.

Lemma recalculate_twice_witness :
  wf_design Sample.cosf Sample.running /\
  exists st1 st2,
    Sample.recalculate Sample.running = Some st1 /\
    Sample.recalculate st1 = Some st2 /\
    coeff st2 = coeff st1.
Proof.
  split; [exact sample_running_design|].
  destruct (recalculate_twice Sample.cosf Sample.fftwf_dft_backward
              Sample.running sample_running_design)
    as (st1 & st2 & H1 & H2 & Hco & _).
  exists st1, st2. exact (conj H1 (conj H2 Hco)).
Defined.

Lemma ctor_init_uses_default_witness :
  (default_rate Sample.DEFAULT_SAMPLE_RATE /\
   U32.in_range (dsp_inputSampleRate (Sample.block false)) /\
   U32.in_range (dsp_inputChannels (Sample.block false))) /\
  forall st',
    Sample.init (LowPass_ctor Sample.DEFAULT_SAMPLE_RATE (Sample.block false))
    <> Some (InitFailed MustSpecifyRate, st').
Proof.
  assert (default_rate Sample.DEFAULT_SAMPLE_RATE) as HD
    by (split; reflexivity).
  assert (U32.in_range (dsp_inputSampleRate (Sample.block false))) as Hrate
    by (split; [discriminate|reflexivity]).
  assert (U32.in_range (dsp_inputChannels (Sample.block false))) as Hch
    by (split; [discriminate|reflexivity]).
  split; [exact (conj HD (conj Hrate Hch))|].
  exact (proj1 (proj2 (proj2
    (ctor_init_uses_default Sample.cosf Sample.fresh Sample.fftwf_dft_backward
       Sample.DEFAULT_SAMPLE_RATE (Sample.block false) HD Hrate Hch)))).
Defined.

Lemma sample_primed_stream : wf_stream Sample.primed.
Proof.
  apply wf_stream_after_frame. exact sample_running_stream.
Qed.

Lemma sample_primed_members :
  inputChannels Sample.primed = 2 /\ _decimation Sample.primed = 2 /\
  decimationCount Sample.primed = 1 /\ headpos Sample.primed = 1 /\
  _firLength Sample.primed = 64.
Proof. vm_compute. repeat split. Qed.

Lemma process_frame_step_witness :
  (wf_stream Sample.primed /\
   Z.of_nat (length Sample.frame) = inputChannels Sample.primed /\
   0 <= 0 /\
   (decimationCount Sample.primed + 1 = _decimation Sample.primed ->
    0 + inputChannels Sample.primed
    <= Z.of_nat (length Sample.out_frame))) /\
  exists st' outpos' buf',
    process_frame (inputChannels Sample.primed) Sample.frame Sample.primed
      0 Sample.out_frame = Some (st', outpos', buf') /\
    headpos st' = (headpos Sample.primed + 1) mod _firLength Sample.primed /\
    buf' =
      written
        ((fun h =>
            Reference.convolve (coeff Sample.primed) h
              (_firLength Sample.primed) (headpos Sample.primed))
           <$> fir st')
        0 Sample.out_frame /\
    outpos' = 0 + inputChannels Sample.primed /\
    decimationCount st' = 0.
Proof.
  assert (Z.of_nat (length Sample.frame) = inputChannels Sample.primed)
    as Hframe by reflexivity.
  assert (0 <= 0) as Hpos by (intros Hgt; discriminate Hgt).
  assert (decimationCount Sample.primed + 1 = _decimation Sample.primed)
    as Hdue.
  { destruct sample_primed_members as (_ & Hdec & Hdc & _).
    rewrite Hdec, Hdc. reflexivity. }
  assert (decimationCount Sample.primed + 1 = _decimation Sample.primed ->
          0 + inputChannels Sample.primed
          <= Z.of_nat (length Sample.out_frame)) as Hroom.
  { intros _. destruct sample_primed_members as (Hch & _).
    rewrite Hch. intros Hgt. discriminate Hgt. }
  split; [exact (conj sample_primed_stream
                   (conj Hframe (conj Hpos Hroom)))|].
  destruct (process_frame_step Sample.primed Sample.frame 0 Sample.out_frame
              sample_primed_stream Hframe Hpos Hroom)
    as (st' & outpos' & buf' & Hstep & _ & _ & Hhp & Hout).
  destruct (decide (decimationCount Sample.primed + 1
                    = _decimation Sample.primed)) as [_|Hne];
    [|destruct (Hne Hdue)].
  destruct Hout as (Hbuf & Hout & Hdc).
  exists st', outpos', buf'.
  exact (conj Hstep (conj Hhp (conj Hbuf (conj Hout Hdc)))).
Defined.


Lemma process_truncates_witness :
  (wf_stream Sample.running /\
   has_room Sample.running Sample.five_samples Sample.out_frame) /\
  exists st' outs,
    process Sample.five_samples Sample.out_frame Sample.running =
      Some (true, st', written (concat outs) 0 Sample.out_frame) /\
    process (take 4 Sample.five_samples) Sample.out_frame Sample.running =
      Some (true, st', written (concat outs) 0 Sample.out_frame) /\
    headpos st' = (headpos Sample.running + 2) mod _firLength Sample.running.
Proof.
  assert (has_room Sample.running Sample.five_samples Sample.out_frame)
    as Hroom.
  { vm_compute. intros Hgt. discriminate Hgt. }
  split; [exact (conj sample_running_stream Hroom)|].
  destruct (process_truncates Sample.running Sample.five_samples
              Sample.out_frame sample_running_stream Hroom)
    as (st' & outs & Hall & Hprefix & Hhp & _).
  change (frames_of (inputChannels Sample.running) Sample.five_samples)
    with 2 in Hprefix, Hhp.
  change (Z.to_nat (2 * inputChannels Sample.running)) with 4%nat in Hprefix.
  exists st', outs. exact (conj Hall (conj Hprefix Hhp)).
Defined.

(** ** Where a claim as first stated fails *)

(** C4 as stated fails when 48 kHz is to be decimated by 239: the derived
    output rate is [48000 / 239 = 200], of which 48000 is an exact multiple,
    and one of the two members is set; yet [init] returns [false], because
    [200 * 239] is not 48000. *)
Lemma init_rejects_exact_multiple :
  fst <$> Sample.init Sample.odd_decimation
    = Some (InitFailed NotIntegerMultiple) /\
  _decimation Sample.odd_decimation = 239 /\
  _outputSampleRate (with_derived_rates Sample.odd_decimation) = 200 /\
  inputSampleRate Sample.odd_decimation mod 200 = 0.
Proof. vm_compute. repeat split. Qed.

(** ** Where the code misses what it sets out to do *)

Lemma sample_wide_design : wf_design Sample.cosf Sample.wide.
Proof. apply wf_design_set_passband, sample_running_design. Qed.

(** C1.  The code at a passband of 2^26 Hz (64 taps, 48 kHz).  The
    product [_firLength * _passband] is formed in [unsigned int] and
    [64 * 2^26] wraps to 0: the cutoff bin of the code is 0 where the
    bin for the desired pass band is [floor (64 * 2^26 / 48000 / 2) = 44739],
    so bin 0 of [spec] holds 0.0 instead of 1.0 and the spectrum is not
    the one of the specification; nor are the coefficients, already with
    the simplest of transforms. *)
Lemma recalculate_cutoff_wraps :
  wf_design Sample.cosf Sample.wide /\
  _firLength Sample.wide = 64 /\
  Reference.maxbin 64 (_passband Sample.wide) (inputSampleRate Sample.wide)
    = 44739 /\
  cutoff_bin Sample.wide = Some 0 /\
  (exists st' S,
     Sample.recalculate Sample.wide = Some st' /\ spec st' = Some S /\
     vget S 0 = Some (Float32.zero, Float32.zero) /\
     ~ Reference.DesignSpectrum 64 44739 S) /\
  coeff <$> Sample.recalculate Sample.wide <>
  Some (Reference.TapCoefficients Sample.cosf Sample.fftwf_dft_backward 64
          (mirrored_boxcar 64 44739 <$> seqZ 0 64) <$> seqZ 0 64).
Proof.
  split; [exact sample_wide_design|].
  split; [reflexivity|]. split; [vm_compute; reflexivity|].
  split; [vm_compute; reflexivity|]. split.
  - exists (designed Sample.cosf Sample.fftwf_dft_backward Sample.wide),
           (mirrored_boxcar 64 0 <$> seqZ 0 64).
    split; [exact (recalculate_wf_design Sample.cosf Sample.fftwf_dft_backward
                     Sample.wide sample_wide_design)|].
    split; [vm_compute; reflexivity|]. split; [vm_compute; reflexivity|].
    intros [_ Hone]. destruct (Hone 0) as [H0 _];
      [vm_compute; split; discriminate|].
    vm_compute in H0. discriminate H0.
  - vm_compute. intros Heq. discriminate Heq.
Qed.

Lemma huge_length : Z.of_nat (length Sample.huge) = 4294967296.
Proof.
  unfold Sample.huge. rewrite length_replicate. apply Z2Nat.id.
  intros Hlt. discriminate Hlt.
Qed.

Lemma huge_odd_length : Z.of_nat (length Sample.huge_odd) = 4294967297.
Proof.
  unfold Sample.huge_odd. rewrite length_replicate. apply Z2Nat.id.
  intros Hlt. discriminate Hlt.
Qed.

(** A block whose size is a multiple of [2^32], or one sample more, is not
    read at all, and nothing is written. *)
Lemma process_wrapped_size block out st :
  inputChannels st = 2 ->
  U32.u32 (Z.of_nat (length block)) < 2 ->
  process block out st = Some (true, st, out).
Proof.
  intros Hch Hsize.
  pose proof (u32_in_range (Z.of_nat (length block))) as [Hu0 _].
  unfold process. cbv zeta. rewrite Hch. unfold U32.div.
  rewrite decide_False by lia. rewrite bind_Some.
  rewrite Z.div_small by lia. reflexivity.
Qed.

(** C10.  The code on a block of [2^32 + 1] samples for two channels: the
    size is not a multiple of 2 and the largest whole-frame prefix has
    [floor (size / 2) = 2^31] frames, but [inBuffer.size()] is narrowed to
    [unsigned int], to 1, and the call returns [true] without having run a
    single frame; the state and the output buffer, whatever its room, are
    as they were. *)
Lemma huge_odd_block_is_dropped :
  wf_stream Sample.running /\
  Z.of_nat (length Sample.huge_odd) mod inputChannels Sample.running = 1 /\
  Z.of_nat (length Sample.huge_odd) / inputChannels Sample.running
    = 2147483648 /\
  frames_of (inputChannels Sample.running) Sample.huge_odd = 0 /\
  forall outBuffer,
    process Sample.huge_odd outBuffer Sample.running =
    Some (true, Sample.running, outBuffer).
Proof.
  destruct sample_running_members as (Hch & _).
  split; [exact sample_running_stream|].
  unfold frames_of.
  rewrite huge_odd_length, Hch. split; [reflexivity|]. split; [reflexivity|].
  split; [reflexivity|]. intros outBuffer.
  apply process_wrapped_size; [exact Hch|].
  rewrite huge_odd_length. reflexivity.
Qed.

(** C3.  The code on a single block of [2^32] samples for two channels and
    a decimation by 2, the counter at 0: the block holds
    [2^31 = 2^30 * 2] whole frames, so that [2^30] output frames are due,
    but [inBuffer.size()] is narrowed to [unsigned int], to 0, and the call
    writes no output frame, whatever room the output buffer has. *)
Lemma huge_block_writes_nothing :
  wf_stream Sample.running /\
  decimationCount Sample.running = 0 /\
  Z.of_nat (length Sample.huge) / inputChannels Sample.running
    = 1073741824 * _decimation Sample.running /\
  frames_of (inputChannels Sample.running) Sample.huge = 0 /\
  forall outBuffer,
    process_calls [(Sample.huge, outBuffer)] Sample.running =
    Some (Sample.running, [outBuffer]).
Proof.
  destruct sample_running_members as (Hch & Hdec & _ & _ & Hdc & _).
  split; [exact sample_running_stream|]. split; [exact Hdc|].
  unfold frames_of.
  rewrite huge_length, Hch, Hdec. split; [reflexivity|].
  split; [reflexivity|]. intros outBuffer.
  cbn [process_calls].
  rewrite (process_wrapped_size Sample.huge outBuffer Sample.running Hch)
    by (rewrite huge_length; reflexivity).
  reflexivity.
Qed.

(** * The life cycle and the stream *)

(** ** The life cycle: [init], [deinit], [init] again *)

Lemma with_derived_rates_kept st :
  inputSampleRate (with_derived_rates st) = inputSampleRate st /\
  inputChannels (with_derived_rates st) = inputChannels st /\
  _firLength (with_derived_rates st) = _firLength st /\
  _passband (with_derived_rates st) = _passband st /\
  isRunning (with_derived_rates st) = isRunning st /\
  fir (with_derived_rates st) = fir st.
Proof. unfold with_derived_rates. by case_decide. Qed.

(** The decimation factor [init] derives is a positive [unsigned int]. *)
Lemma derived_decimation st :
  wf_config st -> 0 < inputSampleRate st -> 0 < supplied st ->
  inputSampleRate st mod supplied st = 0 ->
  0 < _decimation (with_derived_rates st) < U32.modulus.
Proof.
  intros [_ [_ Hrate] _ _ [_ Hdec] _] Hpos.
  unfold supplied, with_derived_rates.
  case_decide; simpl; intros Hs Hmod; [|lia].
  pose proof (Z.div_mod (inputSampleRate st) (_reqOutputRate st)).
  assert (0 < inputSampleRate st / _reqOutputRate st) by nia.
  split; [done|]. nia.
Qed.

Lemma designed_idempotent cosf dft st :
  designed cosf dft (designed cosf dft st) = designed cosf dft st.
Proof. by destruct st. Qed.

Section Lifecycle.

Variable cosf : float -> float.
Variable fresh : Z -> Z -> fftwf_complex.
Variable fftwf_dft_backward : Z -> list fftwf_complex -> Z -> fftwf_complex.

Local Abbreviation init := (init cosf fresh fftwf_dft_backward).
Local Abbreviation init_checked := (init_checked cosf fresh fftwf_dft_backward).
Local Abbreviation recalculate := (recalculate fftwf_dft_backward).
Local Abbreviation setPassband := (setPassband fftwf_dft_backward).
Local Abbreviation designed := (designed cosf fftwf_dft_backward).

(** A [true] from [init] on a well-formed configuration is the third of
    the outcomes. *)
Lemma init_Ok_started st st' :
  wf_config st -> 0 < inputSampleRate st ->
  init st = Some (InitOk, st') ->
  0 < supplied st /\ inputSampleRate st mod supplied st = 0 /\
  wf_design cosf st' /\ started_from (with_derived_rates st) st'.
Proof.
  intros Hwf Hpos Hinit.
  destruct (init_cases cosf fresh fftwf_dft_backward st Hwf Hpos)
    as [_ _ Hi|_ _ Hi|st1 Hs Hmod Hi Hd Hfrom];
    rewrite Hi in Hinit; [discriminate Hinit..|].
  injection Hinit as <-. done.
Qed.

(** With at least one channel the streaming side is well-formed too. *)
Lemma init_Ok_wf_stream st st' :
  wf_config st -> 0 < inputSampleRate st -> 0 < inputChannels st ->
  init st = Some (InitOk, st') ->
  wf_stream st'.
Proof.
  intros Hwf Hpos Hch Hinit.
  destruct (init_Ok_started st st' Hwf Hpos Hinit) as (Hs & Hmod & Hd & Hfrom).
  pose proof (derived_decimation st Hwf Hpos Hs Hmod) as Hdec.
  destruct (with_derived_rates_kept st) as (Hr & Hc & Hn & Hp & Hrun & _).
  apply (started_from_wf_stream _ _ Hfrom); [| |done].
  - rewrite Hn. apply Hwf.
  - rewrite Hc. split; [done|]. apply Hwf.
Qed.

(** X1.  A [true] from [init] on a well-formed configuration with a
    positive input rate and at least one channel leaves a started filter:
    the arrays allocated, the plan made and the window computed, one ring
    of [_firLength] samples per channel, [headpos] and the counter at 0, a
    positive decimation factor; the configuration is kept and the output
    has the channels of the input. *)
Theorem init_starts_filter st st' :
  wf_config st -> 0 < inputSampleRate st -> 0 < inputChannels st ->
  init st = Some (InitOk, st') ->
  wf_design cosf st' /\ wf_stream st' /\
  headpos st' = 0 /\ decimationCount st' = 0 /\
  inputSampleRate st' = inputSampleRate st /\
  inputChannels st' = inputChannels st /\
  _outputChannels st' = inputChannels st /\
  _firLength st' = _firLength st /\
  _passband st' = _passband st /\
  isRunning st' = isRunning st.
Proof.
  intros Hwf Hpos Hch Hinit.
  destruct (init_Ok_started st st' Hwf Hpos Hinit) as (Hs & Hmod & Hd & Hfrom).
  destruct (with_derived_rates_kept st) as (Hr & Hc & Hn & Hp & Hrun & _).
  split; [done|]. split; [by apply (init_Ok_wf_stream st)|].
  destruct Hfrom. repeat split; congruence.
Qed.

(** The state [init] leaves is the design of the state it reached before
    its call of [recalculate]. *)
Lemma init_checked_designed st :
  power_of_two (_firLength st) ->
  0 < inputSampleRate st < U32.modulus ->
  U32.mul (_outputSampleRate st) (_decimation st) = inputSampleRate st ->
  exists pre, init_checked st = Some (InitOk, designed pre) /\
    wf_design cosf pre /\
    _firLength pre = _firLength st /\ _passband pre = _passband st /\
    inputSampleRate pre = inputSampleRate st.
Proof.
  destruct st as [rate ch run orate och n sp im pl win co hist pb hp dc dec req].
  simpl. intros Hpow Hrate Heq.
  pose proof (power_of_two_bounds _ Hpow) as Hb.
  unfold init_checked. simpl. rewrite decide_False by (by intros []).
  rewrite window_loop by (try apply length_resize; lia).
  rewrite bind_Some.
  match goal with
  | |- context [recalculate ?pre] =>
      assert (wf_design cosf pre) as Hwf
  end.
  { split; simpl; try done.
    eexists. split; [done|]. apply length_tabulate. lia. }
  rewrite (recalculate_wf_design _ _ _ Hwf), bind_Some.
  eexists. split; [reflexivity|]. split; [exact Hwf|].
  split; [reflexivity|]. split; reflexivity.
Qed.

(** X2.  A [true] from [init] leaves the design of the passband that was
    configured before: [spec] holds the mirrored boxcar spectrum for the
    cutoff bin of [_passband], [window] the Hamming window divided by the
    tap count, and [coeff], at every index, the windowed real part of the
    backward transform; a call of [recalculate] would change nothing. *)
Theorem init_designs_passband st st' :
  wf_config st -> 0 < inputSampleRate st ->
  init st = Some (InitOk, st') ->
  let n := _firLength st in
  let S :=
    mirrored_boxcar n (wrapped_maxbin n (_passband st) (inputSampleRate st))
      <$> seqZ 0 n in
  spec st' = Some S /\
  Reference.DesignSpectrum n
    (wrapped_maxbin n (_passband st) (inputSampleRate st)) S /\
  window st' = Reference.WindowCoefficients cosf n <$> seqZ 0 n /\
  coeff st' =
    Reference.TapCoefficients cosf fftwf_dft_backward n S <$> seqZ 0 n /\
  recalculate st' = Some st'.
Proof.
  intros Hwf Hpos Hinit n S.
  destruct (init_Ok_started st st' Hwf Hpos Hinit) as (Hs & Hmod & Hd & Hfrom).
  destruct (with_derived_rates_kept st) as (Hr & Hc & Hn & Hp & Hrun & _).
  destruct (derived_product st (wfc_inputSampleRate _ Hwf) Hs) as [Hiff _].
  rewrite init_derived in Hinit by done.
  destruct (init_checked_designed (with_derived_rates st))
    as (pre & Hpre & Hwfpre & Hn' & Hp' & Hr').
  { rewrite Hn. apply Hwf. }
  { rewrite Hr. split; [done|]. apply Hwf. }
  { by apply Hiff. }
  rewrite Hpre in Hinit. injection Hinit as <-.
  rewrite Hn in Hn'. rewrite Hp in Hp'. rewrite Hr in Hr'.
  split; [|split; [|split; [|split]]].
  - simpl. unfold S, n. by rewrite Hn', Hp', Hr'.
  - apply mirrored_boxcar_DesignSpectrum, Hwf.
  - simpl. unfold n. rewrite <- Hn'. apply Hwfpre.
  - simpl. unfold S, n. by rewrite Hn', Hp', Hr'.
  - rewrite (recalculate_wf_design _ _ _ Hd).
    by rewrite designed_idempotent.
Qed.

Lemma recalculate_zero_rate st :
  inputSampleRate st = 0 -> recalculate st = None.
Proof.
  intros Hz. unfold recalculate, cutoff_bin, U32.div.
  by rewrite decide_True by done.
Qed.

(** X3.  With an input rate of 0 and a decimation factor or an output rate
    set, [init] passes the integrality test -- the derived rates multiply to
    0 -- and runs into the division by the input rate in [recalculate]:
    its behaviour is undefined. *)
Theorem init_zero_input_rate st :
  wf_config st -> inputSampleRate st = 0 -> 0 < supplied st ->
  init st = None.
Proof.
  intros Hwf Hz Hs. rewrite init_derived by done.
  assert (power_of_two (_firLength (with_derived_rates st))) as Hpow.
  { destruct (with_derived_rates_kept st) as (_ & _ & -> & _). apply Hwf. }
  assert (inputSampleRate (with_derived_rates st) = 0) as Hrate.
  { destruct (with_derived_rates_kept st) as (-> & _). done. }
  assert (U32.mul (_outputSampleRate (with_derived_rates st))
            (_decimation (with_derived_rates st)) = 0) as Hmul.
  { unfold with_derived_rates. rewrite Hz.
    unfold supplied in Hs. unfold U32.mul.
    case_decide; simpl; rewrite Z.div_0_l by lia.
    - by rewrite Z.mul_0_r.
    - by rewrite Z.mul_0_l. }
  revert Hpow Hrate Hmul. generalize (with_derived_rates st). clear.
  intros [rate ch run orate och n sp im pl win co hist pb hp dc dec req].
  simpl. intros Hpow Hrate Hmul.
  pose proof (power_of_two_bounds _ Hpow) as Hb.
  unfold init_checked. simpl.
  rewrite decide_False by (intros Hne; apply Hne; congruence).
  rewrite window_loop by (try apply length_resize; lia).
  rewrite bind_Some.
  rewrite recalculate_zero_rate by exact Hrate. reflexivity.
Qed.

(** X4.  A [false] from [init] has allocated nothing and has left the
    vectors, the cursor and the counter alone.  Without a rate or a
    factor the state is unchanged; at the integrality test the rates are
    already derived and stored, the output channels assigned, and the
    product of the stored output rate and factor is not the input rate. *)
Theorem init_failure_keeps_arrays st e st' :
  init st = Some (InitFailed e, st') ->
  spec st' = spec st /\ impulse st' = impulse st /\ p st' = p st /\
  window st' = window st /\ coeff st' = coeff st /\ fir st' = fir st /\
  headpos st' = headpos st /\ decimationCount st' = decimationCount st /\
  match e with
  | MustSpecifyRate =>
      st' = st /\ _reqOutputRate st <= 0 /\ _decimation st <= 0
  | NotIntegerMultiple =>
      0 < supplied st /\
      st' = set_outputChannels (inputChannels st) (with_derived_rates st) /\
      U32.mul (_outputSampleRate st') (_decimation st') <> inputSampleRate st
  end.
Proof.
  intros Hinit.
  destruct (decide (0 < supplied st)) as [Hs|Hs].
  - rewrite init_derived in Hinit by done.
    unfold init_checked in Hinit. cbv zeta in Hinit.
    case_decide as Hne.
    + injection Hinit as <- <-.
      unfold with_derived_rates. case_decide; simpl; repeat split; try done.
      all: simpl in Hne; unfold with_derived_rates in Hne;
        rewrite ?decide_True in Hne by done;
        rewrite ?decide_False in Hne by done; exact Hne.
    + destruct (for_upto _ _ _); [rewrite bind_Some in Hinit|done].
      match type of Hinit with
      | recalculate ?pre ≫= _ = _ =>
          destruct (recalculate pre);
          [rewrite bind_Some in Hinit|done]
      end.
      discriminate Hinit.
  - unfold supplied in Hs. unfold init in Hinit.
    case_decide as Hr; [lia|]. rewrite decide_False in Hinit by lia.
    injection Hinit as <- <-. repeat split; lia || done.
Qed.

End Lifecycle.

Section Resize.

Context {A : Type}.
Implicit Types (v : list A) (d : A).

Lemma resize_same n d v : Z.of_nat (length v) = n -> resize n d v = v.
Proof.
  intros Hlen. unfold resize.
  rewrite firstn_all2 by lia.
  replace (Z.to_nat n - length v)%nat with 0%nat by lia.
  apply app_nil_r.
Qed.

Lemma resize_same_all n d (vs : list (list A)) :
  Forall (fun v => Z.of_nat (length v) = n) vs -> resize n d <$> vs = vs.
Proof.
  induction 1 as [|v vs Hv _ IH]; [done|].
  rewrite fmap_cons, IH. by rewrite resize_same.
Qed.

Lemma all_replicate d v :
  Forall (fun x => x = d) v -> v = replicate (length v) d.
Proof. induction 1 as [|x v -> _ IH]; simpl; [done|]. by rewrite <- IH. Qed.

Lemma resize_all d v n :
  Forall (fun x => x = d) v -> resize n d v = replicate (Z.to_nat n) d.
Proof.
  intros Hall. unfold resize. rewrite (all_replicate d v Hall) at 1.
  rewrite take_replicate, <- replicate_add. f_equal. lia.
Qed.

Lemma resize_nil n d : resize n d [] = replicate (Z.to_nat n) d.
Proof. by apply resize_all. Qed.

End Resize.

(** A ring of zeros holds no sample yet. *)
Lemma holds_past_zeros st c :
  power_of_two (_firLength st) ->
  ring st c = replicate (Z.to_nat (_firLength st)) Float32.zero ->
  holds_past st c [].
Proof.
  intros Hpow Hring j Hj.
  pose proof (Z.mod_pos_bound (headpos st - 1 - j) (_firLength st)).
  rewrite Hring, vget_lookup by lia.
  rewrite lookup_replicate_2 by lia.
  unfold vget. by case_decide.
Qed.

Section Restart.

Variable cosf : float -> float.
Variable fresh : Z -> Z -> fftwf_complex.
Variable fftwf_dft_backward : Z -> list fftwf_complex -> Z -> fftwf_complex.

Local Abbreviation init := (init cosf fresh fftwf_dft_backward).
Local Abbreviation recalculate := (recalculate fftwf_dft_backward).
Local Abbreviation setPassband := (setPassband fftwf_dft_backward).

(** X5.  [init] sizes the rings and does not clear them: where no ring
    holds a sample -- after the constructor, which leaves [fir] empty, or
    after [deinit], which empties every ring -- a [true] from [init] leaves
    one ring of [_firLength] zeros per channel, so that every channel
    starts from a history of zeros. *)
Theorem init_zeroes_empty_rings st st' :
  wf_config st -> 0 < inputSampleRate st ->
  Forall (fun h => h = []) (fir st) ->
  init st = Some (InitOk, st') ->
  fir st' =
    replicate (Z.to_nat (inputChannels st))
      (replicate (Z.to_nat (_firLength st)) Float32.zero) /\
  forall c, 0 <= c < inputChannels st -> holds_past st' c [].
Proof.
  intros Hwf Hpos Hempty Hinit.
  destruct (init_Ok_started cosf fresh fftwf_dft_backward st st' Hwf Hpos Hinit)
    as (Hs & Hmod & Hd & Hfrom).
  destruct (with_derived_rates_kept st) as (Hr & Hc & Hn & Hp & Hrun & Hfir).
  pose proof (sf_fir _ _ Hfrom) as Hrings.
  rewrite Hn, Hc, Hfir in Hrings.
  rewrite (resize_all [] (fir st)) in Hrings by done.
  rewrite fmap_replicate, resize_nil in Hrings.
  split; [done|]. intros c Hc'.
  apply holds_past_zeros.
  - rewrite (sf_firLength _ _ Hfrom), Hn. apply Hwf.
  - unfold ring. rewrite Hrings, vget_lookup by lia.
    rewrite lookup_replicate_2 by lia. simpl.
    by rewrite (sf_firLength _ _ Hfrom), Hn.
Qed.

(** X6.  [init] on a filter whose rings are sized already -- a second
    [init] without a [deinit] in between -- keeps what the rings hold,
    while it puts [headpos] and the counter back to 0. *)
Theorem init_again_keeps_rings st st' :
  wf_config st -> 0 < inputSampleRate st -> wf_stream st ->
  init st = Some (InitOk, st') ->
  fir st' = fir st /\ headpos st' = 0 /\ decimationCount st' = 0 /\
  wf_stream st'.
Proof.
  intros Hwf Hpos Hstream Hinit.
  pose proof (init_Ok_wf_stream cosf fresh fftwf_dft_backward st st' Hwf Hpos
                (proj1 (wfs_inputChannels _ Hstream)) Hinit) as Hstream'.
  destruct (init_Ok_started cosf fresh fftwf_dft_backward st st' Hwf Hpos Hinit)
    as (Hs & Hmod & Hd & Hfrom).
  split; [|by destruct Hfrom].
  destruct (with_derived_rates_kept st) as (Hr & Hc & Hn & Hp & Hrun & Hfir).
  rewrite (sf_fir _ _ Hfrom), Hn, Hc, Hfir.
  rewrite resize_same by apply Hstream.
  apply resize_same_all, Hstream.
Qed.

End Restart.

(** Storing a frame in rings that are empty is out of their bounds. *)
Lemma store_frame_empty_rings channels frame st :
  0 < channels -> Forall (fun h => h = []) (fir st) ->
  store_frame channels frame st = None.
Proof.
  intros Hch Hempty. unfold store_frame, for_upto.
  destruct (Z.to_nat channels) as [|k] eqn:Hk; [lia|].
  cbn [for_loop].
  destruct (vget frame 0) as [x|]; [rewrite bind_Some|done].
  destruct (vget (fir st) 0) as [h|] eqn:Hh; [rewrite bind_Some|done].
  assert (h = []) as ->.
  { rewrite Forall_lookup in Hempty. unfold vget in Hh.
    case_decide; [|done]. by eapply Hempty. }
  unfold vset. simpl. by rewrite decide_False by lia.
Qed.

Lemma process_empty_rings inBuffer outBuffer st :
  0 < inputChannels st <= U32.u32 (Z.of_nat (length inBuffer)) ->
  Forall (fun h => h = []) (fir st) ->
  process inBuffer outBuffer st = None.
Proof.
  intros Hch Hempty. unfold process. cbv zeta.
  unfold U32.div. rewrite decide_False by lia. rewrite bind_Some.
  assert (1 <= U32.u32 (Z.of_nat (length inBuffer)) / inputChannels st).
  { apply Z.div_le_lower_bound; lia. }
  destruct (Z.to_nat _) as [|k] eqn:Hk; [lia|].
  cbn [process_loop]. unfold process_frame.
  by rewrite store_frame_empty_rings by (done || lia).
Qed.

Lemma deinit_Some st st' :
  deinit st = Some st' ->
  st' =
  set_fir ((fun _ => []) <$> fir st)
    (set_coeff []
       (set_window [] (set_impulse None (set_spec None (set_p None st))))).
Proof.
  unfold deinit. destruct (p st); [rewrite bind_Some|done].
  by intros [= <-].
Qed.

Lemma wf_config_deinit st st' :
  deinit st = Some st' -> wf_config st -> wf_config st'.
Proof. intros ->%deinit_Some []. by split. Qed.

Section Shutdown.

Variable cosf : float -> float.
Variable fresh : Z -> Z -> fftwf_complex.
Variable fftwf_dft_backward : Z -> list fftwf_complex -> Z -> fftwf_complex.

Local Abbreviation init := (init cosf fresh fftwf_dft_backward).
Local Abbreviation recalculate := (recalculate fftwf_dft_backward).
Local Abbreviation setPassband := (setPassband fftwf_dft_backward).

(** X7.  [deinit] on a filter that holds a plan returns; it empties
    [window], [coeff] and every ring -- [fir] keeps one, empty, ring per
    channel -- and leaves the configuration, the cursor and the counter
    alone.  Until the next [init] the filter must not be used: a second
    [deinit], [recalculate], [setPassband] on a block flagged as running
    and [process] on a block of at least one frame all have undefined
    behaviour. *)
Theorem deinit_releases st :
  is_Some (p st) ->
  exists st',
    deinit st = Some st' /\
    window st' = [] /\ coeff st' = [] /\
    length (fir st') = length (fir st) /\
    Forall (fun h => h = []) (fir st') /\
    (inputSampleRate st' = inputSampleRate st /\
     inputChannels st' = inputChannels st /\
     _firLength st' = _firLength st /\ _passband st' = _passband st /\
     _decimation st' = _decimation st /\
     _reqOutputRate st' = _reqOutputRate st /\
     headpos st' = headpos st /\ decimationCount st' = decimationCount st) /\
    deinit st' = None /\
    recalculate st' = None /\
    (isRunning st = true -> forall hz, setPassband hz st' = None) /\
    (forall inBuffer outBuffer,
       0 < inputChannels st <= U32.u32 (Z.of_nat (length inBuffer)) ->
       process inBuffer outBuffer st' = None).
Proof.
  intros [pl Hp].
  assert (forall st1, spec st1 = None -> recalculate st1 = None) as Hrec.
  { intros st1 Hs. unfold recalculate.
    destruct (cutoff_bin st1); [rewrite bind_Some|done]. by rewrite Hs. }
  assert (Forall (fun h : list float => h = []) ((fun _ => []) <$> fir st))
    as Hempty by (by apply Forall_fmap, Forall_true).
  eexists. split; [unfold deinit; rewrite Hp, bind_Some; reflexivity|].
  cbv zeta.
  split; [done|]. split; [done|]. split; [apply length_fmap|].
  split; [exact Hempty|]. split; [done|].
  split; [done|]. split; [by apply Hrec|]. split.
  - intros Hrun hz. unfold setPassband. cbv zeta.
    change (isRunning (set_passband hz _)) with (isRunning st).
    rewrite Hrun. by apply Hrec.
  - intros inBuffer outBuffer Hch. by apply process_empty_rings.
Qed.

(** X8.  [deinit] followed by [init] starts the filter afresh: on a
    well-formed configuration with a positive input rate and at least one
    channel a [true] from that [init] leaves a started filter whose rings
    are all zeros, whatever they held before the [deinit]. *)
Theorem deinit_init_restarts st st1 st2 :
  wf_config st -> 0 < inputSampleRate st -> 0 < inputChannels st ->
  deinit st = Some st1 ->
  init st1 = Some (InitOk, st2) ->
  wf_design cosf st2 /\ wf_stream st2 /\
  fir st2 =
    replicate (Z.to_nat (inputChannels st))
      (replicate (Z.to_nat (_firLength st)) Float32.zero) /\
  headpos st2 = 0 /\ decimationCount st2 = 0 /\
  _passband st2 = _passband st.
Proof.
  intros Hwf Hpos Hch Hde Hinit.
  pose proof (wf_config_deinit _ _ Hde Hwf) as Hwf1.
  pose proof (deinit_Some _ _ Hde) as Hst1.
  assert (inputSampleRate st1 = inputSampleRate st) as Hr by (by rewrite Hst1).
  assert (inputChannels st1 = inputChannels st) as Hc by (by rewrite Hst1).
  assert (_firLength st1 = _firLength st) as Hn by (by rewrite Hst1).
  assert (_passband st1 = _passband st) as Hpb by (by rewrite Hst1).
  assert (Forall (fun h : list float => h = []) (fir st1)) as Hempty.
  { rewrite Hst1. by apply Forall_fmap, Forall_true. }
  rewrite <- Hr in Hpos. rewrite <- Hc in Hch.
  destruct (init_Ok_started cosf fresh fftwf_dft_backward st1 st2 Hwf1 Hpos Hinit)
    as (Hs & Hmod & Hd & Hfrom).
  destruct (with_derived_rates_kept st1) as (_ & Hc1 & Hn1 & Hp1 & _ & Hfir1).
  split; [done|].
  split; [by apply (init_Ok_wf_stream cosf fresh fftwf_dft_backward st1)|].
  split.
  { rewrite (sf_fir _ _ Hfrom), Hn1, Hc1, Hfir1, Hn, Hc.
    rewrite (resize_all [] (fir st1)) by done.
    by rewrite fmap_replicate, resize_nil. }
  destruct Hfrom. repeat split; congruence.
Qed.

(** X9.  The two ends of the design.  A passband below
    [2 * inputSampleRate / _firLength] Hz gives the cutoff bin 0 and
    [recalculate] then writes a spectrum of zeros only: no bin passes, not
    even bin 0.  A cutoff bin above [_firLength / 2] gives a spectrum of
    ones only. *)
Theorem spectrum_extremes st :
  wf_design cosf st ->
  let n := _firLength st in
  let maxbin := wrapped_maxbin n (_passband st) (inputSampleRate st) in
  exists st' S,
    recalculate st = Some st' /\ spec st' = Some S /\
    (0 <= _passband st -> n * _passband st < 2 * inputSampleRate st ->
     maxbin = 0) /\
    (maxbin <= 0 ->
     S = replicate (Z.to_nat n) (Float32.zero, Float32.zero)) /\
    (n / 2 < maxbin ->
     S = replicate (Z.to_nat n) (Float32.one, Float32.zero)).
Proof.
  intros Hwf n maxbin.
  pose proof (wfd_firLength _ _ Hwf) as Hpow.
  pose proof (power_of_two_bounds _ Hpow) as Hb. fold n in Hb.
  pose proof (wfd_inputSampleRate _ _ Hwf) as Hrate.
  eexists _, _. split; [by apply recalculate_wf_design|].
  split; [reflexivity|]. fold n. fold maxbin.
  assert (0 <= n / 2 < n) by (split; [apply Z.div_pos|apply Z.div_lt]; lia).
  pose proof (power_of_two_half _ Hpow) as Hhalf. fold n in Hhalf.
  split; [|split].
  - intros Hp0 Hsmall. unfold maxbin, wrapped_maxbin, U32.mul, U32.u32.
    assert (0 <= (n * _passband st) mod U32.modulus <= n * _passband st).
    { split; [apply Z.mod_pos_bound; by rewrite modulus_eq|].
      apply Z.mod_le; [nia|by rewrite modulus_eq]. }
    rewrite Z.div_div by lia. apply Z.div_small. lia.
  - intros Hm. rewrite replicate_tabulate by lia.
    apply vector_eq_tabulate; [apply length_tabulate; lia|].
    intros k Hk. rewrite vget_tabulate by done.
    unfold mirrored_boxcar, Reference.boxcar.
    rewrite decide_False; [done|]. case_decide; lia.
  - intros Hm. rewrite replicate_tabulate by lia.
    apply vector_eq_tabulate; [apply length_tabulate; lia|].
    intros k Hk. rewrite vget_tabulate by done.
    unfold mirrored_boxcar, Reference.boxcar.
    rewrite decide_True; [done|]. case_decide; lia.
Qed.

End Shutdown.

(** ** Blocks and the state between them *)

Lemma touched_after_frame a b c frame st :
  set_headpos a (set_decimationCount b (set_fir c (after_frame frame st))) =
  set_headpos a (set_decimationCount b (set_fir c st)).
Proof. by destruct st. Qed.

(** The frames of a block touch [fir], [headpos] and [decimationCount]
    only. *)
Lemma after_frames_touches inframes channels :
  forall input st,
    let st' := fst (after_frames inframes channels input st) in
    st' =
    set_headpos (headpos st')
      (set_decimationCount (decimationCount st') (set_fir (fir st') st)).
Proof.
  induction inframes as [|k IH]; intros input st.
  - simpl. by destruct st.
  - cbn [after_frames fst]. cbv zeta.
    etrans; [apply IH|]. apply touched_after_frame.
Qed.

(** The frames of two blocks on end, the first of whole frames, are the
    frames of the first and then those of the second. *)
Lemma after_frames_app n1 n2 channels :
  forall b1 b2 st,
    0 <= channels ->
    Z.of_nat (length b1) = Z.of_nat n1 * channels ->
    after_frames (n1 + n2) channels (b1 ++ b2) st =
    (fst (after_frames n2 channels b2 (fst (after_frames n1 channels b1 st))),
     snd (after_frames n1 channels b1 st) ++
     snd (after_frames n2 channels b2 (fst (after_frames n1 channels b1 st)))).
Proof.
  induction n1 as [|k IH]; intros b1 b2 st Hch Hlen.
  - destruct b1; [|simpl in Hlen; lia]. simpl. apply surjective_pairing.
  - cbn [after_frames Nat.add fst snd].
    rewrite take_app_le, drop_app_le by nia.
    rewrite IH by (rewrite ?length_drop; nia).
    cbn [fst snd]. by rewrite app_assoc.
Qed.

(** What [process] runs on a filter with a channel: the loop over the
    whole frames of the block, writing from the start of the buffer. *)
Lemma process_Some inBuffer outBuffer st st' buf :
  inputChannels st <> 0 ->
  process inBuffer outBuffer st = Some (true, st', buf) <->
  exists outpos,
    process_loop (Z.to_nat (frames_of (inputChannels st) inBuffer))
      (inputChannels st) inBuffer st 0 outBuffer = Some (st', outpos, buf).
Proof.
  intros Hch. unfold process, frames_of, U32.div. cbv zeta.
  rewrite decide_False by done. rewrite bind_Some.
  destruct (process_loop _ _ _ _ _ _) as [[[st1 outpos1] buf1]|].
  - rewrite bind_Some. cbv beta iota. split.
    + intros [= -> ->]. by exists outpos1.
    + by intros (outpos & [= -> _ ->]).
  - split; [intros H; discriminate H|]. intros (outpos & H). discriminate H.
Qed.

(** X10.  On a started filter and an output buffer with room for the
    frames due, [process] returns [true], leaves a started filter, and
    writes no member but the rings, [headpos] and [decimationCount]: the
    configuration, the window, the coefficients and the arrays of the
    design are those before the call, and the design side stays
    well-formed; the output buffer keeps its size. *)
Theorem process_keeps_design st inBuffer outBuffer :
  wf_stream st ->
  has_room st inBuffer outBuffer ->
  exists st' buf,
    process inBuffer outBuffer st = Some (true, st', buf) /\
    wf_stream st' /\
    st' =
    set_headpos (headpos st')
      (set_decimationCount (decimationCount st') (set_fir (fir st') st)) /\
    length buf = length outBuffer /\
    forall cosf, wf_design cosf st -> wf_design cosf st'.
Proof.
  intros Hwf Hroom. pose proof (wfs_inputChannels _ Hwf) as Hch.
  destruct (process_counts (inputChannels st) (_firLength st) (_decimation st)
              (coeff st) inBuffer outBuffer st)
    as (st' & outs & Hproc & Hrun & (Hwf' & _) & _ & _ & Hlen & Hall);
    [done..|].
  exists st', (written (concat outs) 0 outBuffer).
  split; [done|]. split; [done|].
  assert (st' =
          set_headpos (headpos st')
            (set_decimationCount (decimationCount st')
               (set_fir (fir st') st))) as Heq.
  { pose proof (after_frames_touches
                  (Z.to_nat (frames_of (inputChannels st) inBuffer))
                  (inputChannels st) inBuffer st) as Htouch.
    cbv zeta in Htouch. by rewrite Hrun in Htouch. }
  split; [exact Heq|]. split.
  - apply length_written; [done|].
    apply length_concat_frames in Hall. rewrite Hall, Hlen.
    unfold has_room in Hroom. lia.
  - intros cosf Hd. rewrite Heq. destruct Hd. by split.
Qed.

(** X11.  The degenerate blocks.  A block of fewer samples than one frame
    -- an empty block for instance -- makes [process] return [true] with
    the state and the output buffer unchanged, on any filter with a
    channel and whatever the buffer; with no channel at all [process]
    divides by zero. *)
Theorem process_degenerate st inBuffer outBuffer :
  (inputChannels st = 0 -> process inBuffer outBuffer st = None) /\
  (Z.of_nat (length inBuffer) < inputChannels st ->
   process inBuffer outBuffer st = Some (true, st, outBuffer)).
Proof.
  split.
  - intros Hz. unfold process, U32.div. cbv zeta.
    by rewrite decide_True by done.
  - intros Hshort. apply process_Some; [lia|]. exists 0.
    pose proof (u32_in_range (Z.of_nat (length inBuffer))) as [Hu0 _].
    assert (U32.u32 (Z.of_nat (length inBuffer)) <= Z.of_nat (length inBuffer))
      by (apply Z.mod_le; [lia|done]).
    unfold frames_of. by rewrite Z.div_small by lia.
Qed.

(** X12.  Cutting a block at a frame boundary changes nothing: [process]
    on a block of whole frames and then on a second block leaves the state
    and, on end, the output frames of one call on the two blocks on end
    (of fewer than [2^32] samples together), each call writing its frames
    from the start of an output buffer with room for them. *)
Theorem process_append st b1 b2 k outBuffer :
  wf_stream st ->
  Z.of_nat (length b1) = k * inputChannels st ->
  Z.of_nat (length (b1 ++ b2)) < U32.modulus ->
  has_room st (b1 ++ b2) outBuffer ->
  exists st1 outs1 st2 outs2,
    (forall out1, has_room st b1 out1 ->
       process b1 out1 st = Some (true, st1, written (concat outs1) 0 out1)) /\
    (forall out2, has_room st1 b2 out2 ->
       process b2 out2 st1 = Some (true, st2, written (concat outs2) 0 out2)) /\
    process (b1 ++ b2) outBuffer st =
      Some (true, st2, written (concat (outs1 ++ outs2)) 0 outBuffer).
Proof.
  intros Hwf Hlen Hsize Hroom. pose proof (wfs_inputChannels _ Hwf) as Hch.
  rewrite length_app, Nat2Z.inj_add in Hsize.
  assert (streams (inputChannels st) (_firLength st) (_decimation st)
            (coeff st) st) as Hst by done.
  assert (0 <= k) by nia.
  assert (frames_of (inputChannels st) b1 = k) as Hk.
  { rewrite frames_of_small by lia. rewrite Hlen. apply Z.div_mul. lia. }
  assert (0 <= frames_of (inputChannels st) b2) as Hpos2.
  { rewrite frames_of_small by lia. apply Z.div_pos; lia. }
  assert (frames_of (inputChannels st) (b1 ++ b2) =
          k + frames_of (inputChannels st) b2) as Hboth.
  { rewrite !frames_of_small by (rewrite ?length_app; lia).
    rewrite length_app, Nat2Z.inj_add, Hlen. rewrite Z.add_comm.
    rewrite Z.div_add by lia. lia. }
  destruct (after_frames_counts (inputChannels st) (_firLength st)
              (_decimation st) (coeff st) (Z.to_nat k) b1 st Hst)
    as (Hst1 & _); [lia|].
  set (run1 := after_frames (Z.to_nat k) (inputChannels st) b1 st) in *.
  set (run2 := after_frames (Z.to_nat (frames_of (inputChannels st) b2))
                 (inputChannels st) b2 (fst run1)).
  exists (fst run1), (snd run1), (fst run2), (snd run2).
  split; [|split].
  - intros out1 Hroom1.
    rewrite (process_closed _ _ _ _ b1 out1 st Hst Hroom1).
    by rewrite Hk.
  - intros out2 Hroom2.
    pose proof Hst1 as (_ & Hch1 & _).
    rewrite (process_closed _ _ _ _ b2 out2 (fst run1) Hst1 Hroom2).
    done.
  - rewrite (process_closed _ _ _ _ (b1 ++ b2) outBuffer st Hst Hroom).
    rewrite Hboth, Z2Nat.inj_add by lia.
    rewrite after_frames_app by lia. done.
Qed.

(** ** An output buffer without room *)

Lemma for_loop_app {S : Type} (body : Z -> S -> option S) a b :
  forall from s,
    for_loop (a + b) from body s =
    for_loop a from body s ≫= for_loop b (from + Z.of_nat a) body.
Proof.
  induction a as [|a IH]; intros from s.
  - simpl. by rewrite Z.add_0_r.
  - cbn [for_loop Nat.add]. destruct (body from s) as [s'|]; [|done].
    rewrite !bind_Some. rewrite IH. do 2 f_equal. lia.
Qed.

(** Clearing a frame that does not fit in the buffer writes behind its
    end. *)
Lemma clear_frame_overrun channels outpos buf :
  0 <= outpos <= Z.of_nat (length buf) ->
  Z.of_nat (length buf) < outpos + channels ->
  clear_frame channels outpos buf = None.
Proof.
  intros Hpos Hover. unfold clear_frame, for_upto.
  set (m := Z.of_nat (length buf) - outpos).
  replace (Z.to_nat channels)
    with (Z.to_nat m + S (Z.to_nat (channels - m - 1)))%nat by lia.
  rewrite for_loop_app.
  destruct (for_loop_invariant
    (fun (_ : Z) w => length w = length buf)
    (fun c buf => vset buf (outpos + c) (Float64.to_float d0_0))
    (Z.to_nat m) 0 buf) as (w & -> & Hw); [done| |].
  - intros i w Hi Hw. rewrite vset_is_Some by lia.
    eexists. split; [done|]. by rewrite length_insert.
  - rewrite bind_Some. cbn [for_loop].
    assert (vset w (outpos + (0 + Z.of_nat (Z.to_nat m)))
              (Float64.to_float d0_0) = None) as ->; [|done].
    unfold vset. apply decide_False. lia.
Qed.

Section Overrun.

Variables (channels tapCount factor : Z) (taps : list float).

Local Abbreviation streams := (streams channels tapCount factor taps).

(** The loop of [process] runs out of the buffer when it lacks room for
    the frames due. *)
Lemma process_loop_overrun inframes :
  forall input st outpos buf,
    streams st ->
    Z.of_nat inframes * channels <= Z.of_nat (length input) ->
    0 <= outpos <= Z.of_nat (length buf) ->
    Z.of_nat (length buf) <
    outpos +
    frames_due factor (decimationCount st) (Z.of_nat inframes) * channels ->
    process_loop inframes channels input st outpos buf = None.
Proof.
  unfold frames_due.
  induction inframes as [|k IH]; intros input st outpos buf Hst Hlen Hpos Hover.
  - destruct Hst as (Hwf & _ & _ & Hd & _).
    pose proof (wfs_decimationCount _ Hwf). rewrite Hd in *.
    rewrite Z.add_0_r, Z.div_small in Hover by lia. lia.
  - pose proof Hst as (Hwf & Hch & Hn & Hd & Hco).
    pose proof (wfs_inputChannels _ Hwf) as Hchb.
    pose proof (wfs_decimation _ Hwf) as Hdec.
    pose proof (wfs_decimationCount _ Hwf) as Hdc.
    set (frame := take (Z.to_nat channels) input).
    assert (Z.of_nat (length frame) = channels)
      as Hframe by (unfold frame; rewrite length_take; nia).
    pose proof (frame_output_samples st frame Hwf) as Hsamples.
    rewrite Hch, Hd in Hsamples. rewrite Hch in Hchb. rewrite Hd in Hdec, Hdc.
    assert (decimationCount (after_frame frame st) =
            if decide (decimationCount st + 1 = factor) then 0
            else decimationCount st + 1) as Hdc'.
    { unfold after_frame. simpl. by rewrite Hd. }
    cbn [process_loop]. fold frame.
    destruct (decide (decimationCount st + 1 = factor
                      /\ Z.of_nat (length buf) < outpos + channels))
      as [[Heq Hshort]|Hfits].
    + unfold process_frame.
      rewrite <- Hch. rewrite store_frame_stored by (done || congruence).
      rewrite bind_Some. cbv zeta beta.
      set (st1 := set_fir (stored_rings st frame) st).
      change (decimationCount st1) with (decimationCount st).
      assert (U32.add (decimationCount st) 1 = decimationCount st + 1) as ->.
      { apply u32_small. unfold U32.in_range. lia. }
      change (decimationCount (set_decimationCount ?x _)) with x.
      change (_decimation (set_decimationCount ?x st1)) with (_decimation st).
      rewrite decide_True by congruence.
      rewrite clear_frame_overrun by lia. reflexivity.
    + pose proof (process_frame_closed st frame Hwf) as Hbody.
      rewrite Hch in Hbody. specialize (Hbody Hframe outpos buf).
      rewrite Hbody; [rewrite bind_Some; cbv beta iota| lia |].
      2:{ intros Heq. rewrite Hd in Heq. lia. }
      assert (Z.of_nat
                (length (concat (option_list (frame_output frame st))))
              + (decimationCount (after_frame frame st) + Z.of_nat k)
                / factor * channels
              = (decimationCount st + Z.of_nat (S k)) / factor * channels
              /\ outpos +
                 Z.of_nat
                   (length (concat (option_list (frame_output frame st))))
                 <= Z.of_nat (length buf)) as [Hdue Hroom].
      { rewrite Hsamples, Hdc'.
        destruct (decide (decimationCount st + 1 = factor)) as [Heq|Hne].
        - destruct (counter_reset factor (Z.of_nat k)) as [_ Hq]; [lia..|].
          replace (decimationCount st + Z.of_nat (S k))
            with (factor + Z.of_nat k) by lia.
          rewrite Hq, Z.add_0_l. lia.
        - replace (decimationCount st + Z.of_nat (S k))
            with (decimationCount st + 1 + Z.of_nat k) by lia.
          lia. }
      apply IH.
      * by apply streams_after_frame.
      * rewrite length_drop. nia.
      * rewrite length_written by lia. lia.
      * rewrite length_written by lia. lia.
Qed.

End Overrun.

(** X18.  [process] never looks at the size of the output buffer: on a
    started filter a call that is due more frames than the buffer has room
    for writes behind its end, which is undefined. *)
Theorem process_overruns st inBuffer outBuffer :
  wf_stream st ->
  ~ has_room st inBuffer outBuffer ->
  process inBuffer outBuffer st = None.
Proof.
  intros Hwf Hroom. pose proof (wfs_inputChannels _ Hwf) as Hch.
  pose proof (u32_in_range (Z.of_nat (length inBuffer))) as [Hu0 _].
  assert (U32.u32 (Z.of_nat (length inBuffer)) <= Z.of_nat (length inBuffer))
    as Hle by (apply Z.mod_le; [lia|done]).
  assert (0 <= frames_of (inputChannels st) inBuffer) as Hpos
    by (apply Z.div_pos; lia).
  assert (frames_of (inputChannels st) inBuffer * inputChannels st
          <= Z.of_nat (length inBuffer)) as Hfit.
  { pose proof (Z.mul_div_le (U32.u32 (Z.of_nat (length inBuffer)))
                  (inputChannels st)).
    unfold frames_of. lia. }
  unfold has_room in Hroom.
  unfold process. cbv zeta.
  unfold U32.div. rewrite decide_False by lia. rewrite bind_Some.
  fold (frames_of (inputChannels st) inBuffer).
  rewrite (process_loop_overrun (inputChannels st) (_firLength st)
             (_decimation st) (coeff st)); [done|done| | |];
    rewrite ?Z2Nat.id; lia.
Qed.

(** ** The ring as a record of the past *)

Lemma foldl_ext_in {A B : Type} (f g : A -> B -> A) (l : list B) :
  (forall a x, x ∈ l -> f a x = g a x) ->
  forall a, foldl f a l = foldl g a l.
Proof.
  induction l as [|x l IH]; intros Hfg a; [done|]. simpl.
  rewrite Hfg by left. apply IH. intros a' y Hy. apply Hfg. by right.
Qed.

Lemma vget_cons_0 {A : Type} (x : A) v : vget (x :: v) 0 = Some x.
Proof. done. Qed.

Lemma vget_cons_succ {A : Type} (x : A) v j :
  1 <= j -> vget (x :: v) j = vget v (j - 1).
Proof.
  intros Hj. rewrite !vget_lookup by lia.
  replace (Z.to_nat j) with (S (Z.to_nat (j - 1))) by lia. done.
Qed.

(** Going back from the slot just written. *)
Lemma behind_headpos L hp j :
  0 < L -> ((hp + 1) mod L - 1 - j) mod L = (hp - j) mod L.
Proof.
  intros HL.
  replace ((hp + 1) mod L - 1 - j) with ((hp + 1) mod L - (1 + j)) by lia.
  rewrite Zminus_mod_idemp_l. f_equal. lia.
Qed.

Lemma behind_headpos_ne L hp j :
  0 <= hp < L -> 1 <= j < L -> (hp - j) mod L <> hp.
Proof.
  intros Hhp Hj. destruct (decide (j <= hp)).
  - rewrite Z.mod_small by lia. lia.
  - replace (hp - j) with (hp - j + L + (-1) * L) by lia.
    rewrite Z_mod_plus_full, Z.mod_small by lia. lia.
Qed.

Section History.

Variables (st : LowPass) (frame : list float) (c : Z) (x : float)
  (past : list float).
Hypothesis Hwf : wf_stream st.
Hypothesis Hframe : Z.of_nat (length frame) = inputChannels st.
Hypothesis Hx : vget frame c = Some x.
Hypothesis Hpast : holds_past st c past.

Lemma ring_after_frame :
  ring (after_frame frame st) c = <[Z.to_nat (headpos st) := x]> (ring st c).
Proof.
  apply vget_Some_lt in Hx as Hc. rewrite Hframe in Hc.
  unfold ring at 1, after_frame. simpl. unfold stored_rings.
  rewrite vget_tabulate by done. simpl. unfold stored_ring. by rewrite Hx.
Qed.

Lemma ring_st_length : Z.of_nat (length (ring st c)) = _firLength st.
Proof.
  apply vget_Some_lt in Hx as Hc. rewrite Hframe in Hc.
  destruct (vget_is_Some (fir st) c) as [h Hh];
    [rewrite (wfs_fir_channels _ Hwf); lia|].
  unfold ring. rewrite Hh. simpl. by eapply ring_length.
Qed.

(** The slot [tap] places behind the one just written holds the sample of
    [tap] frames ago. *)
Lemma ring_after_frame_tap tap :
  0 <= tap < _firLength st ->
  vget (ring (after_frame frame st) c) ((headpos st - tap) mod _firLength st) =
  Some (default Float32.zero (vget (x :: past) tap)).
Proof.
  intros Htap. pose proof (wfs_headpos _ Hwf) as Hhp.
  pose proof ring_st_length as Hlen.
  rewrite ring_after_frame.
  destruct (decide (tap = 0)) as [->|Hne].
  - rewrite Z.sub_0_r, Z.mod_small by lia.
    by rewrite vget_insert_eq by lia.
  - pose proof (behind_headpos_ne (_firLength st) (headpos st) tap) as Hbe.
    assert (0 <= (headpos st - tap) mod _firLength st < _firLength st)
      by (apply Z.mod_pos_bound; lia).
    rewrite vget_insert_ne by lia.
    rewrite vget_cons_succ by lia.
    rewrite <- (Hpast (tap - 1)) by lia. do 2 f_equal. lia.
Qed.

Lemma holds_past_after_frame : holds_past (after_frame frame st) c (x :: past).
Proof.
  intros j Hj. change (_firLength (after_frame frame st)) with (_firLength st) in *.
  change (headpos (after_frame frame st))
    with ((headpos st + 1) mod _firLength st).
  pose proof (wfs_headpos _ Hwf).
  rewrite behind_headpos by lia. by apply ring_after_frame_tap.
Qed.

Lemma frame_output_fir_sum out :
  frame_output frame st = Some out ->
  vget out c = Some (fir_sum (coeff st) (x :: past) (_firLength st)).
Proof.
  apply vget_Some_lt in Hx as Hc. rewrite Hframe in Hc.
  unfold frame_output. case_decide; [|done]. intros [= <-].
  rewrite vget_lookup, list_lookup_fmap, <- vget_lookup by lia.
  assert (vget (stored_rings st frame) c = Some (ring (after_frame frame st) c))
    as ->.
  { unfold ring, after_frame. simpl. unfold stored_rings.
    by rewrite vget_tabulate by done. }
  simpl. f_equal.
  unfold Reference.convolve, Reference.convolve_terms, fir_sum.
  apply foldl_ext_in. intros sum tap Htap.
  apply list_elem_of_lookup in Htap as [i Hi]. apply lookup_seqZ in Hi.
  by rewrite ring_after_frame_tap by lia.
Qed.

End History.

(** X13.  The ring is a record of the past of its channel.  If the ring of
    channel [c] holds the samples [past], the latest first, then after one
    more frame it holds that frame's sample before them -- the oldest of
    [_firLength] is overwritten --, and the output frame, when the counter
    makes one and the output buffer has room for it, carries for that
    channel, at [out[c]], the sum over the taps of [coeff[tap]] times the
    sample of [tap] frames ago, the sample just stored being that of 0
    frames ago; otherwise nothing is written. *)
Theorem process_frame_fir st frame c x past outpos buf :
  wf_stream st ->
  Z.of_nat (length frame) = inputChannels st ->
  vget frame c = Some x ->
  holds_past st c past ->
  0 <= outpos ->
  (decimationCount st + 1 = _decimation st ->
   outpos + inputChannels st <= Z.of_nat (length buf)) ->
  exists st' outpos' buf',
    process_frame (inputChannels st) frame st outpos buf =
      Some (st', outpos', buf') /\
    holds_past st' c (x :: past) /\
    (decimationCount st + 1 <> _decimation st ->
     outpos' = outpos /\ buf' = buf) /\
    (decimationCount st + 1 = _decimation st ->
     outpos' = outpos + inputChannels st /\
     vget buf' (outpos + c) =
       Some (fir_sum (coeff st) (x :: past) (_firLength st))).
Proof.
  intros Hwf Hframe Hx Hpast Hpos Hroom.
  apply vget_Some_lt in Hx as Hc. rewrite Hframe in Hc.
  pose proof (frame_output_samples st frame Hwf) as Hsamples.
  eexists _, _, _.
  split; [by apply process_frame_closed|].
  split; [by apply holds_past_after_frame|].
  split.
  - intros Hne. rewrite decide_False in Hsamples by done.
    unfold frame_output. rewrite decide_False by done. simpl.
    by rewrite written_nil, Z.add_0_r.
  - intros Heq. rewrite decide_True in Hsamples by done.
    split; [by rewrite Hsamples|].
    destruct (frame_output frame st) as [out|] eqn:Hout.
    + pose proof (frame_output_fir_sum st frame c x past Hwf Hframe Hx Hpast
                    out Hout) as Hsum.
      simpl in Hsamples |- *. rewrite app_nil_r in Hsamples |- *.
      destruct (buffer_segment buf outpos (inputChannels st))
        as (pre & seg & post & -> & <- & Hseg); [lia..|].
      rewrite written_segment by lia.
      rewrite vget_segment by lia. exact Hsum.
    + unfold frame_output in Hout. by rewrite decide_True in Hout.
Qed.

(** The samples of a channel in the frames of a block, frame by
    frame. *)
Lemma channel_samples_succ channels c k input :
  0 <= c < channels -> 0 <= k ->
  channel_samples channels c (k + 1) input =
  channel_samples channels c k (drop (Z.to_nat channels) input) ++
  [default Float32.zero (vget (take (Z.to_nat channels) input) c)].
Proof.
  intros Hc Hk. unfold channel_samples.
  rewrite seqZ_cons by lia. rewrite fmap_cons, reverse_cons.
  replace (Z.pred (k + 1)) with k by lia.
  rewrite <- (fmap_add_seqZ 1 0). rewrite <- list_fmap_compose.
  f_equal.
  - f_equal. apply list_fmap_ext. intros i j Hj. simpl.
    apply lookup_seqZ in Hj.
    rewrite !vget_lookup by nia. rewrite lookup_drop. do 2 f_equal. nia.
  - rewrite Z.mul_0_l, Z.add_0_l. rewrite !vget_lookup by lia.
    by rewrite lookup_take_lt by lia.
Qed.

Lemma after_frames_history inframes channels c :
  forall input st past,
    wf_stream st -> inputChannels st = channels -> 0 <= c < channels ->
    Z.of_nat inframes * channels <= Z.of_nat (length input) ->
    holds_past st c past ->
    holds_past (fst (after_frames inframes channels input st)) c
      (channel_samples channels c (Z.of_nat inframes) input ++ past).
Proof.
  induction inframes as [|k IH];
    intros input st past Hwf Hch Hc Hlen Hpast; [done|].
  assert (Z.of_nat (length (take (Z.to_nat channels) input)) = channels)
    as Hframe by (rewrite length_take; nia).
  cbn [after_frames fst]. cbv zeta.
  destruct (vget_is_Some (take (Z.to_nat channels) input) c) as [x Hx];
    [lia|].
  rewrite Nat2Z.inj_succ, <- Z.add_1_r.
  rewrite channel_samples_succ by lia. rewrite Hx. simpl.
  rewrite <- app_assoc. simpl.
  apply IH; try done.
  - apply wf_stream_after_frame. done.
  - rewrite length_drop. nia.
  - apply holds_past_after_frame; [done|congruence|done|done].
Qed.

(** X14.  [process] keeps that record over a block: after a call with
    room for its output the ring of a channel holds the samples of the
    channel in the frames that were read, the latest first, before those
    it held. *)
Theorem process_keeps_history st inBuffer outBuffer c past :
  wf_stream st -> has_room st inBuffer outBuffer ->
  0 <= c < inputChannels st ->
  holds_past st c past ->
  exists st' buf,
    process inBuffer outBuffer st = Some (true, st', buf) /\
    holds_past st' c
      (channel_samples (inputChannels st) c
         (frames_of (inputChannels st) inBuffer) inBuffer ++ past).
Proof.
  intros Hwf Hroom Hc Hpast. pose proof (wfs_inputChannels _ Hwf) as Hch.
  destruct (process_counts (inputChannels st) (_firLength st) (_decimation st)
              (coeff st) inBuffer outBuffer st)
    as (st' & outs & Hproc & Hrun & _); [done..|].
  eexists _, _. split; [exact Hproc|].
  pose proof (u32_in_range (Z.of_nat (length inBuffer))) as [Hu0 _].
  assert (U32.u32 (Z.of_nat (length inBuffer)) <= Z.of_nat (length inBuffer))
    by (apply Z.mod_le; [lia|done]).
  pose proof (Z.mul_div_le (U32.u32 (Z.of_nat (length inBuffer)))
                (inputChannels st)).
  assert (0 <= frames_of (inputChannels st) inBuffer) as Hpos
    by (apply Z.div_pos; lia).
  rewrite <- (Z2Nat.id (frames_of (inputChannels st) inBuffer)) at 1 by done.
  replace st'
    with (fst (after_frames
                 (Z.to_nat (frames_of (inputChannels st) inBuffer))
                 (inputChannels st) inBuffer st)) by (by rewrite Hrun).
  apply after_frames_history; try done.
  unfold frames_of in *. lia.
Qed.
(** ** The further properties at the sample filter *)

Lemma sample_running_config : wf_config Sample.running.
Proof.
  split; try (vm_compute; split; [discriminate|reflexivity]).
  exists 6. split; [lia|reflexivity].
Qed.

Lemma sample_no_rate : wf_config Sample.no_rate.
Proof.
  split; try (vm_compute; split; [discriminate|reflexivity]).
  exists 6. split; [lia|reflexivity].
Qed.

Lemma sample_reinitialised :
  Sample.init Sample.running = Some (InitOk, Sample.reinitialised).
Proof. vm_compute. reflexivity. Qed.

Lemma sample_stopped : deinit Sample.running = Some Sample.stopped.
Proof. vm_compute. reflexivity. Qed.

Lemma sample_restarted :
  Sample.init Sample.stopped = Some (InitOk, Sample.restarted).
Proof. vm_compute. reflexivity. Qed.

Lemma sample_odd_fails :
  Sample.init Sample.odd_decimation =
  Some (InitFailed NotIntegerMultiple,
        set_outputChannels (inputChannels Sample.odd_decimation)
          (with_derived_rates Sample.odd_decimation)).
Proof. vm_compute. reflexivity. Qed.

Lemma sample_narrow_design : wf_design Sample.cosf Sample.narrow.
Proof. apply wf_design_set_passband, sample_running_design. Qed.

Lemma sample_running_past : holds_past Sample.running 0 [].
Proof.
  apply holds_past_zeros.
  - exists 6. split; [lia|reflexivity].
  - vm_compute. reflexivity.
Qed.

Lemma init_starts_filter_witness :
  (wf_config Sample.configured /\ 0 < inputSampleRate Sample.configured /\
   0 < inputChannels Sample.configured /\
   Sample.init Sample.configured = Some (InitOk, Sample.initialised)) /\
  wf_stream Sample.initialised /\ headpos Sample.initialised = 0 /\
  decimationCount Sample.initialised = 0.
Proof.
  assert (0 < inputSampleRate Sample.configured) as Hr by reflexivity.
  assert (0 < inputChannels Sample.configured) as Hc by reflexivity.
  pose proof (proj1 sample_initialised) as Hinit.
  split; [exact (conj sample_configured (conj Hr (conj Hc Hinit)))|].
  destruct (init_starts_filter Sample.cosf Sample.fresh
              Sample.fftwf_dft_backward Sample.configured Sample.initialised
              sample_configured Hr Hc Hinit)
    as (_ & Hs & Hhp & Hdc & _).
  exact (conj Hs (conj Hhp Hdc)).
Defined.

Lemma init_designs_passband_witness :
  (wf_config Sample.configured /\ 0 < inputSampleRate Sample.configured /\
   Sample.init Sample.configured = Some (InitOk, Sample.initialised)) /\
  Sample.recalculate Sample.initialised = Some Sample.initialised.
Proof.
  assert (0 < inputSampleRate Sample.configured) as Hr by reflexivity.
  pose proof (proj1 sample_initialised) as Hinit.
  split; [exact (conj sample_configured (conj Hr Hinit))|].
  destruct (init_designs_passband Sample.cosf Sample.fresh
              Sample.fftwf_dft_backward Sample.configured Sample.initialised
              sample_configured Hr Hinit)
    as (_ & _ & _ & _ & Hrec).
  exact Hrec.
Defined.

Lemma init_zero_input_rate_witness :
  (wf_config Sample.no_rate /\ inputSampleRate Sample.no_rate = 0 /\
   0 < supplied Sample.no_rate) /\
  Sample.init Sample.no_rate = None.
Proof.
  assert (inputSampleRate Sample.no_rate = 0) as Hz by reflexivity.
  assert (0 < supplied Sample.no_rate) as Hs by reflexivity.
  split; [exact (conj sample_no_rate (conj Hz Hs))|].
  exact (init_zero_input_rate Sample.cosf Sample.fresh
           Sample.fftwf_dft_backward Sample.no_rate sample_no_rate Hz Hs).
Defined.

Lemma init_failure_keeps_arrays_witness :
  Sample.init Sample.odd_decimation =
    Some (InitFailed NotIntegerMultiple,
          set_outputChannels (inputChannels Sample.odd_decimation)
            (with_derived_rates Sample.odd_decimation)) /\
  spec (set_outputChannels (inputChannels Sample.odd_decimation)
          (with_derived_rates Sample.odd_decimation)) =
  spec Sample.odd_decimation.
Proof.
  split; [exact sample_odd_fails|].
  exact (proj1 (init_failure_keeps_arrays Sample.cosf Sample.fresh
                  Sample.fftwf_dft_backward Sample.odd_decimation _ _
                  sample_odd_fails)).
Defined.

Lemma init_zeroes_empty_rings_witness :
  (wf_config Sample.configured /\ 0 < inputSampleRate Sample.configured /\
   Forall (fun h : list float => h = []) (fir Sample.configured) /\
   Sample.init Sample.configured = Some (InitOk, Sample.initialised)) /\
  fir Sample.initialised =
    replicate (Z.to_nat (inputChannels Sample.configured))
      (replicate (Z.to_nat (_firLength Sample.configured)) Float32.zero).
Proof.
  assert (0 < inputSampleRate Sample.configured) as Hr by reflexivity.
  assert (Forall (fun h : list float => h = []) (fir Sample.configured))
    as Hempty by apply Forall_nil_2.
  pose proof (proj1 sample_initialised) as Hinit.
  split; [exact (conj sample_configured (conj Hr (conj Hempty Hinit)))|].
  exact (proj1 (init_zeroes_empty_rings Sample.cosf Sample.fresh
                  Sample.fftwf_dft_backward Sample.configured
                  Sample.initialised sample_configured Hr Hempty Hinit)).
Defined.

Lemma init_again_keeps_rings_witness :
  (wf_config Sample.running /\ 0 < inputSampleRate Sample.running /\
   wf_stream Sample.running /\
   Sample.init Sample.running = Some (InitOk, Sample.reinitialised)) /\
  fir Sample.reinitialised = fir Sample.running /\
  headpos Sample.reinitialised = 0.
Proof.
  assert (0 < inputSampleRate Sample.running) as Hr by reflexivity.
  split; [exact (conj sample_running_config
                   (conj Hr (conj sample_running_stream
                                  sample_reinitialised)))|].
  destruct (init_again_keeps_rings Sample.cosf Sample.fresh
              Sample.fftwf_dft_backward Sample.running Sample.reinitialised
              sample_running_config Hr sample_running_stream
              sample_reinitialised)
    as (Hfir & Hhp & _).
  exact (conj Hfir Hhp).
Defined.

Lemma deinit_releases_witness :
  is_Some (p Sample.running) /\
  exists st',
    deinit Sample.running = Some st' /\
    window st' = [] /\ coeff st' = [] /\
    deinit st' = None /\
    process Sample.frame Sample.out_frame st' = None.
Proof.
  assert (is_Some (p Sample.running)) as Hp.
  { rewrite (wfd_p _ _ sample_running_design). eexists. reflexivity. }
  split; [exact Hp|].
  destruct (deinit_releases Sample.fftwf_dft_backward Sample.running Hp)
    as (st' & Hde & Hwin & Hco & _ & _ & _ & Htwice & _ & _ & Hproc).
  assert (0 < inputChannels Sample.running
          <= U32.u32 (Z.of_nat (length Sample.frame))) as Hframe.
  { vm_compute. split; [reflexivity|]. intros Hgt. discriminate Hgt. }
  exists st'.
  exact (conj Hde (conj Hwin (conj Hco (conj Htwice
           (Hproc Sample.frame Sample.out_frame Hframe))))).
Defined.

Lemma deinit_init_restarts_witness :
  (wf_config Sample.running /\ 0 < inputSampleRate Sample.running /\
   0 < inputChannels Sample.running /\
   deinit Sample.running = Some Sample.stopped /\
   Sample.init Sample.stopped = Some (InitOk, Sample.restarted)) /\
  wf_stream Sample.restarted /\
  fir Sample.restarted =
    replicate (Z.to_nat (inputChannels Sample.running))
      (replicate (Z.to_nat (_firLength Sample.running)) Float32.zero).
Proof.
  assert (0 < inputSampleRate Sample.running) as Hr by reflexivity.
  assert (0 < inputChannels Sample.running) as Hc by reflexivity.
  split; [exact (conj sample_running_config
                   (conj Hr (conj Hc (conj sample_stopped
                                           sample_restarted))))|].
  destruct (deinit_init_restarts Sample.cosf Sample.fresh
              Sample.fftwf_dft_backward Sample.running Sample.stopped
              Sample.restarted sample_running_config Hr Hc sample_stopped
              sample_restarted)
    as (_ & Hs & Hfir & _).
  exact (conj Hs Hfir).
Defined.

Lemma spectrum_extremes_witness :
  wf_design Sample.cosf Sample.narrow /\
  exists st' S,
    Sample.recalculate Sample.narrow = Some st' /\ spec st' = Some S /\
    S = replicate (Z.to_nat (_firLength Sample.narrow))
          (Float32.zero, Float32.zero).
Proof.
  split; [exact sample_narrow_design|].
  destruct (spectrum_extremes Sample.cosf Sample.fftwf_dft_backward
              Sample.narrow sample_narrow_design)
    as (st' & S & Hrec & Hspec & Hbin & Hstop & _).
  assert (0 <= _passband Sample.narrow) as Hp0.
  { vm_compute. intros Hgt. discriminate Hgt. }
  assert (_firLength Sample.narrow * _passband Sample.narrow
          < 2 * inputSampleRate Sample.narrow) as Hsmall.
  { vm_compute. reflexivity. }
  exists st', S.
  exact (conj Hrec (conj Hspec (Hstop (Z.eq_le_incl _ _ (Hbin Hp0 Hsmall))))).
Defined.

Lemma sample_primed_past : holds_past Sample.primed 0 [Float32.one].
Proof.
  apply (holds_past_after_frame Sample.running Sample.frame 0 Float32.one []
           sample_running_stream); [reflexivity|reflexivity|].
  exact sample_running_past.
Qed.

Lemma sample_room_five :
  has_room Sample.running Sample.five_samples Sample.out_frame.
Proof. vm_compute. intros Hgt. discriminate Hgt. Qed.

Lemma process_keeps_design_witness :
  (wf_stream Sample.running /\
   has_room Sample.running Sample.five_samples Sample.out_frame) /\
  exists st' buf,
    process Sample.five_samples Sample.out_frame Sample.running =
      Some (true, st', buf) /\
    wf_stream st' /\ wf_design Sample.cosf st'.
Proof.
  split; [exact (conj sample_running_stream sample_room_five)|].
  destruct (process_keeps_design Sample.running Sample.five_samples
              Sample.out_frame sample_running_stream sample_room_five)
    as (st' & buf & Hproc & Hs & _ & _ & Hd).
  exists st', buf.
  exact (conj Hproc (conj Hs (Hd Sample.cosf sample_running_design))).
Defined.

Lemma process_degenerate_witness :
  Z.of_nat (length [Float32.one]) < inputChannels Sample.running /\
  process [Float32.one] [] Sample.running = Some (true, Sample.running, []).
Proof.
  assert (Z.of_nat (length [Float32.one]) < inputChannels Sample.running)
    as Hshort by reflexivity.
  split; [exact Hshort|].
  exact (proj2 (process_degenerate Sample.running [Float32.one] []) Hshort).
Defined.

Lemma process_append_witness :
  (wf_stream Sample.running /\
   Z.of_nat (length Sample.two_frames) = 2 * inputChannels Sample.running /\
   Z.of_nat (length (Sample.two_frames ++ Sample.three_samples))
   < U32.modulus /\
   has_room Sample.running (Sample.two_frames ++ Sample.three_samples)
     Sample.out_frames) /\
  exists st1 outs1 st2 outs2,
    process Sample.two_frames Sample.out_frame Sample.running =
      Some (true, st1, written (concat outs1) 0 Sample.out_frame) /\
    (has_room st1 Sample.three_samples Sample.out_frame ->
     process Sample.three_samples Sample.out_frame st1 =
       Some (true, st2, written (concat outs2) 0 Sample.out_frame)) /\
    process (Sample.two_frames ++ Sample.three_samples) Sample.out_frames
      Sample.running =
      Some (true, st2, written (concat (outs1 ++ outs2)) 0 Sample.out_frames).
Proof.
  assert (Z.of_nat (length Sample.two_frames)
          = 2 * inputChannels Sample.running) as Hlen by reflexivity.
  assert (Z.of_nat (length (Sample.two_frames ++ Sample.three_samples))
          < U32.modulus) as Hsize by reflexivity.
  assert (has_room Sample.running (Sample.two_frames ++ Sample.three_samples)
            Sample.out_frames) as Hroom.
  { vm_compute. intros Hgt. discriminate Hgt. }
  assert (has_room Sample.running Sample.two_frames Sample.out_frame)
    as Hroom1.
  { vm_compute. intros Hgt. discriminate Hgt. }
  split; [exact (conj sample_running_stream
                   (conj Hlen (conj Hsize Hroom)))|].
  destruct (process_append Sample.running Sample.two_frames
              Sample.three_samples 2 Sample.out_frames
              sample_running_stream Hlen Hsize Hroom)
    as (st1 & outs1 & st2 & outs2 & H1 & H2 & Hboth).
  exists st1, outs1, st2, outs2.
  exact (conj (H1 Sample.out_frame Hroom1)
           (conj (H2 Sample.out_frame) Hboth)).
Defined.

Lemma process_frame_fir_witness :
  (wf_stream Sample.primed /\
   Z.of_nat (length Sample.frame) = inputChannels Sample.primed /\
   vget Sample.frame 0 = Some Float32.one /\
   holds_past Sample.primed 0 [Float32.one] /\
   0 <= 0 /\
   (decimationCount Sample.primed + 1 = _decimation Sample.primed ->
    0 + inputChannels Sample.primed
    <= Z.of_nat (length Sample.out_frame))) /\
  exists st' outpos' buf',
    process_frame (inputChannels Sample.primed) Sample.frame Sample.primed
      0 Sample.out_frame = Some (st', outpos', buf') /\
    holds_past st' 0 [Float32.one; Float32.one] /\
    outpos' = 0 + inputChannels Sample.primed /\
    vget buf' (0 + 0) =
      Some (fir_sum (coeff Sample.primed) [Float32.one; Float32.one]
              (_firLength Sample.primed)).
Proof.
  assert (Z.of_nat (length Sample.frame) = inputChannels Sample.primed)
    as Hframe by reflexivity.
  assert (vget Sample.frame 0 = Some Float32.one) as Hx by reflexivity.
  assert (0 <= 0) as Hpos by (intros Hgt; discriminate Hgt).
  assert (decimationCount Sample.primed + 1 = _decimation Sample.primed)
    as Hdue.
  { destruct sample_primed_members as (_ & Hdec & Hdc & _).
    rewrite Hdec, Hdc. reflexivity. }
  assert (decimationCount Sample.primed + 1 = _decimation Sample.primed ->
          0 + inputChannels Sample.primed
          <= Z.of_nat (length Sample.out_frame)) as Hroom.
  { intros _. destruct sample_primed_members as (Hch & _).
    rewrite Hch. intros Hgt. discriminate Hgt. }
  split; [exact (conj sample_primed_stream
                   (conj Hframe
                      (conj Hx (conj sample_primed_past
                                  (conj Hpos Hroom)))))|].
  destruct (process_frame_fir Sample.primed Sample.frame 0 Float32.one
              [Float32.one] 0 Sample.out_frame
              sample_primed_stream Hframe Hx sample_primed_past Hpos Hroom)
    as (st' & outpos' & buf' & Hstep & Hpast & _ & Hout).
  destruct (Hout Hdue) as [Hpos' Hsum].
  exists st', outpos', buf'.
  exact (conj Hstep (conj Hpast (conj Hpos' Hsum))).
Defined.

Lemma process_keeps_history_witness :
  (wf_stream Sample.running /\
   has_room Sample.running Sample.five_samples Sample.out_frame /\
   0 <= 0 < inputChannels Sample.running /\
   holds_past Sample.running 0 []) /\
  exists st' buf,
    process Sample.five_samples Sample.out_frame Sample.running =
      Some (true, st', buf) /\
    holds_past st' 0 ([Sample.half; Float32.one] ++ []).
Proof.
  assert (0 <= 0 < inputChannels Sample.running) as Hc.
  { split; [intros Hgt; discriminate Hgt|reflexivity]. }
  split; [exact (conj sample_running_stream
                   (conj sample_room_five
                      (conj Hc sample_running_past)))|].
  destruct (process_keeps_history Sample.running Sample.five_samples
              Sample.out_frame 0 []
              sample_running_stream sample_room_five Hc sample_running_past)
    as (st' & buf & Hproc & Hpast).
  change (channel_samples (inputChannels Sample.running) 0
            (frames_of (inputChannels Sample.running) Sample.five_samples)
            Sample.five_samples)
    with [Sample.half; Float32.one] in Hpast.
  exists st', buf. exact (conj Hproc Hpast).
Defined.

Lemma process_overruns_witness :
  (wf_stream Sample.running /\
   ~ has_room Sample.running Sample.two_frames []) /\
  process Sample.two_frames [] Sample.running = None.
Proof.
  assert (~ has_room Sample.running Sample.two_frames []) as Hroom.
  { vm_compute. intros Hle. apply Hle. reflexivity. }
  split; [exact (conj sample_running_stream Hroom)|].
  exact (process_overruns Sample.running Sample.two_frames []
           sample_running_stream Hroom).
Defined.
